(** * RMS astrometry core: a shallow embedding of [RMS/Astrometry/ApplyAstrometry.py]

    The Python module works on [numpy] float64 values.  In this development a
    float is idealised as a real number (rounding is not modelled), except for
    the photometric conversion [calculateMagnitudes], where the special values
    of float64 (NaN and the two infinities) are what the specification talks
    about and are modelled explicitly.

    Arrays are lists; an array written by index inside a loop is a list
    updated with stdpp's [<[i:=v]>]; a Python exception is [None].  An image
    resolution is an [int] that the code only ever uses promoted to a float
    ([X_res/2.0], [float(X_res)]): functions receive it as a real, the camera
    model stores it as an integer. *)

From Stdlib Require Import Floats.
From Stdlib Require Import Reals Lra Lia ZArith Zfloor.
From Stdlib Require Import Ascii String.
From stdpp Require Import base option list gmap.

Open Scope R_scope.

(** ** Numeric primitives of [math] and [numpy] *)

(** [math.radians], [np.radians]. *)
Definition radians (d : R) : R := d * PI / 180.

(** [math.degrees], [np.degrees]. *)
Definition degrees (r : R) : R := r * 180 / PI.

(** Python's [x % m] on floats: the result has the sign of [m]; for a positive
    modulus it is [x - m*floor(x/m)].  On the reals the result is always
    below [m]; in float64 the sum that brings a negative remainder back into
    range is rounded and can be [m] itself ([float_mod] below is the float64
    operation).  Statements about the code therefore use the closed range
    [0, m]. *)
Definition pymod (x m : R) : R := x - m * IZR (Zfloor (x / m)).

(** [math.atan2], [np.arctan2] (two-argument arctangent, value in (-pi, pi]). *)
Definition atan2 (y x : R) : R :=
  if Rlt_dec 0 x then atan (y / x)
  else if Rlt_dec x 0 then
    (if Rle_dec 0 y then atan (y / x) + PI else atan (y / x) - PI)
  else
    (if Rlt_dec 0 y then PI / 2 else if Rlt_dec y 0 then - (PI / 2) else 0).

(** ** The camera model *)

(** A distortion polynomial: "1D numpy array of 12 elements". *)
Record Poly12 : Type := mkPoly12 {
  c0 : R; c1 : R; c2 : R; c3 : R; c4 : R; c5 : R;
  c6 : R; c7 : R; c8 : R; c9 : R; c10 : R; c11 : R
}.

(** [p.[k]] is the Python subscript [p[k]] for the twelve valid indices. *)
Definition coef (p : Poly12) (k : nat) : R :=
  match k with
  | 0%nat => c0 p | 1%nat => c1 p | 2%nat => c2 p | 3%nat => c3 p
  | 4%nat => c4 p | 5%nat => c5 p | 6%nat => c6 p | 7%nat => c7 p
  | 8%nat => c8 p | 9%nat => c9 p | 10%nat => c10 p | _ => c11 p
  end.

Notation "p .[ k ]" := (coef p k%nat) (at level 1, format "p .[ k ]").

(** ** Loops that fill output arrays

    [applyFieldCorrection] and [XY2altAz] share one shape: two output arrays
    made by [np.zeros_like], a counter [i = 0], and a loop over the rows of
    [np.vstack((A, B)).T] that stores two computed values at index [i] and
    increments [i]. *)

(** [np.vstack((X_data, Y_data)).T]: the rows [(X[i], Y[i])]; numpy raises
    when the two arrays differ in length. *)
Fixpoint vstackT (X_data Y_data : list R) : option (list (R * R)) :=
  match X_data, Y_data with
  | [], [] => Some []
  | x :: X', y :: Y' => (fun rows => (x, y) :: rows) <$> vstackT X' Y'
  | _, _ => None
  end.

(** [np.zeros_like(a, dtype=np.float64)]. *)
Definition zeros_like {A} (a : list A) : list R := replicate (length a) 0.

(** The loop state: the counter [i] and the two output arrays. *)
Record Loop2 : Type := mkLoop2 {
  loop_i : nat;
  out_fst : list R;
  out_snd : list R
}.

(** One iteration: compute the two values of the row, store them at index
    [i], increment [i]. *)
Definition store2 (body : R -> R -> R * R) (st : Loop2) (row : R * R) : Loop2 :=
  let '(a, b) := body row.1 row.2 in
  mkLoop2 (S (loop_i st)) (<[loop_i st := a]> (out_fst st)) (<[loop_i st := b]> (out_snd st)).

Definition loop2 (body : R -> R -> R * R) (rows : list (R * R))
    (out1 out2 : list R) : Loop2 :=
  foldl (store2 body) (mkLoop2 0 out1 out2) rows.

(** ** Field correction (rectification) *)

(** The body of the [for Xdet, Ydet in data_matrix] loop of
    [applyFieldCorrection], up to the two stores. *)
Definition correctPoint (x_poly_fwd y_poly_fwd : Poly12) (X_res Y_res F_scale : R)
    (Xdet Ydet : R) : R * R :=
  let Xdet := Xdet - X_res / 2 in
  let Ydet := Ydet - Y_res / 2 in
  let dX := x_poly_fwd.[0]
    + x_poly_fwd.[1] * Xdet
    + x_poly_fwd.[2] * Ydet
    + x_poly_fwd.[3] * Xdet ^ 2
    + x_poly_fwd.[4] * Xdet * Ydet
    + x_poly_fwd.[5] * Ydet ^ 2
    + x_poly_fwd.[6] * Xdet ^ 3
    + x_poly_fwd.[7] * Xdet ^ 2 * Ydet
    + x_poly_fwd.[8] * Xdet * Ydet ^ 2
    + x_poly_fwd.[9] * Ydet ^ 3
    + x_poly_fwd.[10] * Xdet * sqrt (Xdet ^ 2 + Ydet ^ 2)
    + x_poly_fwd.[11] * Ydet * sqrt (Xdet ^ 2 + Ydet ^ 2) in
  let X_pix := Xdet + dX in
  let dY := y_poly_fwd.[0]
    + y_poly_fwd.[1] * Xdet
    + y_poly_fwd.[2] * Ydet
    + y_poly_fwd.[3] * Xdet ^ 2
    + y_poly_fwd.[4] * Xdet * Ydet
    + y_poly_fwd.[5] * Ydet ^ 2
    + y_poly_fwd.[6] * Xdet ^ 3
    + y_poly_fwd.[7] * Xdet ^ 2 * Ydet
    + y_poly_fwd.[8] * Xdet * Ydet ^ 2
    + y_poly_fwd.[9] * Ydet ^ 3
    + y_poly_fwd.[10] * Ydet * sqrt (Xdet ^ 2 + Ydet ^ 2)
    + y_poly_fwd.[11] * Xdet * sqrt (Xdet ^ 2 + Ydet ^ 2) in
  let Y_pix := Ydet + dY in
  let X_pix := X_pix / F_scale in
  let Y_pix := Y_pix / F_scale in
  (X_pix, Y_pix).

(** [applyFieldCorrection(x_poly_fwd, y_poly_fwd, X_res, Y_res, F_scale,
    X_data, Y_data)]. *)
Definition applyFieldCorrection (x_poly_fwd y_poly_fwd : Poly12)
    (X_res Y_res F_scale : R) (X_data Y_data : list R)
    : option (list R * list R) :=
  let X_corrected := zeros_like X_data in
  let Y_corrected := zeros_like Y_data in
  data_matrix ← vstackT X_data Y_data;
  let st := loop2 (correctPoint x_poly_fwd y_poly_fwd X_res Y_res F_scale)
                  data_matrix X_corrected Y_corrected in
  Some (out_fst st, out_snd st).

(** ** Image plane to horizontal coordinates *)

(** The body of the loop of [XY2altAz]: azimuth and altitude of one rectified
    point.  [math.cos] of a float is never exactly zero, so the two quotients
    do not raise in Python; on the reals a zero denominator gives Rocq's
    fixed but unspecified quotient.  On the reals [1 - sin_t^2] is never
    negative; in float64 rounding can push [sin_t] above 1 and [math.sqrt]
    then raises: that exception is outside this model, and statements about
    [XY2altAz] and its callers are made for the runs that return. *)
Definition altAzPoint (lat lon RA_d dec_d Ho pos_angle_ref : R)
    (X_pix Y_pix : R) : R * R :=
  let dec_rad := radians dec_d in
  let sl := sin (radians lat) in
  let cl := cos (radians lat) in
  let radius := radians (sqrt (X_pix ^ 2 + Y_pix ^ 2)) in
  let theta := radians (pymod (90 - pos_angle_ref + degrees (atan2 Y_pix X_pix)) 360) in
  let sin_t := sin dec_rad * cos radius + cos dec_rad * sin radius * cos theta in
  let Dec0det := atan2 sin_t (sqrt (1 - sin_t ^ 2)) in
  let sin_t := sin theta * sin radius / cos Dec0det in
  let cos_t := (cos radius - sin Dec0det * sin dec_rad) / (cos Dec0det * cos dec_rad) in
  let RA0det := pymod (RA_d - degrees (atan2 sin_t cos_t)) 360 in
  let h := radians (Ho + lon - RA0det) in
  let sh := sin h in
  let sd := sin Dec0det in
  let ch := cos h in
  let cd := cos Dec0det in
  let x := - ch * cd * sl + sd * cl in
  let y := - sh * cd in
  let z := ch * cd * cl + sd * sl in
  let r := sqrt (x ^ 2 + y ^ 2) in
  let azimuth := pymod (degrees (atan2 y x)) 360 in
  let altitude := degrees (atan2 z r) in
  (azimuth, altitude).

(** [XY2altAz(X_data, Y_data, lat, lon, RA_d, dec_d, Ho, X_res, Y_res,
    pos_angle_ref, F_scale, x_poly_fwd, y_poly_fwd)]. *)
Definition XY2altAz (X_data Y_data : list R)
    (lat lon RA_d dec_d Ho X_res Y_res pos_angle_ref F_scale : R)
    (x_poly_fwd y_poly_fwd : Poly12) : option (list R * list R) :=
  '(X_corrected, Y_corrected) ←
    applyFieldCorrection x_poly_fwd y_poly_fwd X_res Y_res F_scale X_data Y_data;
  let az_data := zeros_like X_corrected in
  let alt_data := zeros_like X_corrected in
  data_matrix ← vstackT X_corrected Y_corrected;
  let st := loop2 (altAzPoint lat lon RA_d dec_d Ho pos_angle_ref)
                  data_matrix az_data alt_data in
  Some (out_fst st, out_snd st).

(** ** Equatorial to horizontal coordinates *)

(** [raDec2AltAz(JD, lon, lat, ra, dec)].  At a declination of exactly 90 or
    -90 degrees the tangent of the reals has no value ([np.tan] returns a
    large finite number): the azimuth of the model is not meant there. *)
Definition raDec2AltAz (JD lon lat ra dec : R) : R * R :=
  let T := (JD - 2451545) / 36525.0 in
  let lst := pymod (280.46061837 + 360.98564736629 * (JD - 2451545.0)
                    + 0.000387933 * T ^ 2 - (T ^ 3) / 38710000) 360 in
  let lst := lst + lon in
  let lst := radians lst in
  let lat := radians lat in
  let ra := radians ra in
  let dec := radians dec in
  let ha := lst - ra in
  let ha := pymod (ha + PI) (2 * PI) - PI in
  let azim := PI + atan2 (sin ha) (cos ha * sin lat - tan dec * cos lat) in
  let sin_elev := sin lat * sin dec + cos lat * cos dec * cos ha in
  let sin_elev := pymod (sin_elev + 1) 2 - 1 in
  let elev := asin sin_elev in
  let azim := degrees azim in
  let elev := degrees elev in
  (azim, elev).

(** ** Horizontal to equatorial coordinates *)

(** The guard of [altAz2RADec]:
    [if altitude == 90: altitude = 89.9999]. *)
Definition nudgeAltitude (altitude : R) : R :=
  if Req_dec_T altitude 90 then 89.9999 else altitude.

(** The rest of the loop body of [altAz2RADec], from the conversion to
    radians on: right ascension and declination of one point.  On the reals
    the argument of [math.asin] is within [-1, 1]; in float64 rounding can
    push it outside and [math.asin] then raises: that exception is outside
    this model, and statements about [altAz2RADec] are made for the runs that
    return. *)
Definition raDecTrig (lat lon JD azimuth altitude : R) : R * R :=
  let sl := sin (radians lat) in
  let cl := cos (radians lat) in
  let az_rad := radians azimuth in
  let alt_rad := radians altitude in
  let saz := sin az_rad in
  let salt := sin alt_rad in
  let caz := cos az_rad in
  let calt := cos alt_rad in
  let x := - saz * calt in
  let y := - caz * sl * calt + salt * cl in
  let HA := degrees (atan2 x y) in
  let T := (JD - 2451545.0) / 36525.0 in
  let hour_angle := pymod (280.46061837 + 360.98564736629 * (JD - 2451545.0)
                           + 0.000387933 * T ^ 2 - T ^ 3 / 38710000.0) 360 in
  let RA := pymod (hour_angle + lon - HA) 360 in
  let dec := degrees (asin (sl * salt + cl * calt * caz)) in
  (RA, dec).

(** One data point of [altAz2RADec] once its Julian date is known. *)
Definition raDecPoint (lat lon JD azimuth altitude : R) : R * R :=
  let altitude := nudgeAltitude altitude in
  raDecTrig lat lon JD azimuth altitude.

(** The three output arrays of [altAz2RADec] and its counter. *)
Record Loop3 : Type := mkLoop3 {
  loop3_i : nat;
  JD_data : list R;
  RA_data : list R;
  dec_data : list R
}.

Section Conversions.

(** An entry of [time_data]: a tuple (year, month, day, hour, minute,
    second, millisecond) or a [datetime]. *)
Context {TimeData : Type}.

(** [RMS.Astrometry.Conversions] is not part of the sources at hand: its
    functions are parameters.  The second argument is [UT_corr]. *)
Variable date2JD : TimeData -> R -> R.
Variable datetime2JD : TimeData -> R -> R.

(** The loop of [altAz2RADec]; [time_data[i]] raises when out of range. *)
Fixpoint altAz2RADec_loop (lat lon UT_corr : R) (time_data : list TimeData)
    (dt_time : bool) (data_matrix : list (R * R)) (st : Loop3) : option Loop3 :=
  match data_matrix with
  | [] => Some st
  | (azimuth, altitude) :: rest =>
      let i := loop3_i st in
      entry ← time_data !! i;
      let JD := if dt_time then datetime2JD entry (- UT_corr)
                else date2JD entry (- UT_corr) in
      let '(RA, dec) := raDecPoint lat lon JD azimuth altitude in
      altAz2RADec_loop lat lon UT_corr time_data dt_time rest
        (mkLoop3 (S i) (<[i := JD]> (JD_data st)) (<[i := RA]> (RA_data st))
                 (<[i := dec]> (dec_data st)))
  end.

(** [altAz2RADec(lat, lon, UT_corr, time_data, azimuth_data, altitude_data,
    dt_time=False)]. *)
Definition altAz2RADec (lat lon UT_corr : R) (time_data : list TimeData)
    (azimuth_data altitude_data : list R) (dt_time : bool)
    : option (list R * list R * list R) :=
  let st0 := mkLoop3 0 (zeros_like azimuth_data) (zeros_like azimuth_data)
                     (zeros_like azimuth_data) in
  data_matrix ← vstackT azimuth_data altitude_data;
  st ← altAz2RADec_loop lat lon UT_corr time_data dt_time data_matrix st0;
  Some (JD_data st, RA_data st, dec_data st).

End Conversions.

(** ** Photometry: levels to magnitudes *)

(** A float64 with its special values.  Finite values are idealised as reals
    (no rounding, no overflow). *)
Inductive float64 : Type :=
  | Finite (r : R)
  | PosInf
  | NegInf
  | NaN.

(** [np.log10]: NaN below zero, minus infinity at zero (numpy warns, it does
    not raise). *)
Definition f64_log10 (x : float64) : float64 :=
  match x with
  | Finite r =>
      if Rlt_dec 0 r then Finite (ln r / ln 10)
      else if Rlt_dec r 0 then NaN
      else NegInf
  | PosInf => PosInf
  | NegInf => NaN
  | NaN => NaN
  end.

(** The sign of a finite factor decides the product with an infinity; zero
    times infinity is NaN. *)
Definition f64_scale_inf (r : R) (positive_inf : bool) : float64 :=
  if Rlt_dec 0 r then (if positive_inf then PosInf else NegInf)
  else if Rlt_dec r 0 then (if positive_inf then NegInf else PosInf)
  else NaN.

(** IEEE 754 multiplication. *)
Definition f64_mul (x y : float64) : float64 :=
  match x, y with
  | NaN, _ | _, NaN => NaN
  | Finite a, Finite b => Finite (a * b)
  | Finite a, PosInf | PosInf, Finite a => f64_scale_inf a true
  | Finite a, NegInf | NegInf, Finite a => f64_scale_inf a false
  | PosInf, PosInf | NegInf, NegInf => PosInf
  | PosInf, NegInf | NegInf, PosInf => NegInf
  end.

(** IEEE 754 addition. *)
Definition f64_add (x y : float64) : float64 :=
  match x, y with
  | NaN, _ | _, NaN => NaN
  | Finite a, Finite b => Finite (a + b)
  | PosInf, NegInf | NegInf, PosInf => NaN
  | PosInf, _ | _, PosInf => PosInf
  | NegInf, _ | _, NegInf => NegInf
  end.

Definition f64_is_finite (x : float64) : bool :=
  match x with Finite _ => true | _ => false end.

(** [enumerate(level_data)]. *)
Definition enumerate {A} (l : list A) : list (nat * A) := imap pair l.

(** [calculateMagnitudes(level_data, mag_0, mag_lev)]. *)
Definition calculateMagnitudes (level_data : list float64) (mag_0 mag_lev : float64)
    : list float64 :=
  let magnitude_data := replicate (length level_data) (Finite 0) in
  foldl (fun magnitude_data '(i, level) =>
           <[i := f64_add (f64_mul mag_0 (f64_log10 level)) mag_lev]> magnitude_data)
        magnitude_data (enumerate level_data).

(** ** The platepar *)

Record Platepar : Type := mkPlatepar {
  lat : R;
  lon : R;
  elev : R;
  RA_d : R;
  dec_d : R;
  JD : R;
  Ho : R;
  X_res : Z;
  Y_res : Z;
  pos_angle_ref : R;
  F_scale : R;
  mag_0 : float64;
  mag_lev : float64;
  x_poly_fwd : Poly12;
  y_poly_fwd : Poly12;
  x_poly_rev : Poly12;
  y_poly_rev : Poly12;
  UT_corr : R
}.

(** The attribute store [platepar.pos_angle_ref = v]. *)
Definition set_pos_angle_ref (platepar : Platepar) (v : R) : Platepar :=
  mkPlatepar (lat platepar) (lon platepar) (elev platepar) (RA_d platepar)
    (dec_d platepar) (JD platepar) (Ho platepar) (X_res platepar) (Y_res platepar)
    v (F_scale platepar) (mag_0 platepar) (mag_lev platepar)
    (x_poly_fwd platepar) (y_poly_fwd platepar) (x_poly_rev platepar)
    (y_poly_rev platepar) (UT_corr platepar).


(** ** Rotation of the field with respect to the horizon *)

(** The [if rot_angle > 180: rot_angle -= 360] wrap. *)
Definition wrap180 (rot_angle : R) : R :=
  if Rlt_dec 180 rot_angle then rot_angle - 360 else rot_angle.

(** [rotationWrtHorizon(platepar)]. *)
Definition rotationWrtHorizon (platepar : Platepar) : option R :=
  let img_mid_w := IZR (X_res platepar) / 2 in
  let img_mid_h := IZR (Y_res platepar) / 2 in
  let img_up_w := img_mid_w + 10 in
  let img_up_h := img_mid_h in
  '(azim, alt) ← XY2altAz [img_mid_w; img_up_w] [img_mid_h; img_up_h]
      (lat platepar) (lon platepar) (RA_d platepar) (dec_d platepar) (Ho platepar)
      (IZR (X_res platepar)) (IZR (Y_res platepar)) (pos_angle_ref platepar)
      (F_scale platepar) (x_poly_fwd platepar) (y_poly_fwd platepar);
  azim_mid ← azim !! 0%nat;
  alt_mid ← alt !! 0%nat;
  azim_up ← azim !! 1%nat;
  alt_up ← alt !! 1%nat;
  let rot_angle := degrees (atan2 (radians alt_up - radians alt_mid)
                                  (radians azim_up - radians azim_mid)) in
  Some (wrap180 rot_angle).

(** ** Pixel to sky with photometry, and the queries built on it *)

Section PixelToSky.

Context {TimeData : Type}.

(** Absent from the sources at hand and taken as parameters:
    [Conversions.date2JD] (with its default [UT_corr]) and
    [Conversions.jd2Date], the Cython routine [CyFunctions.cyXYToRADec]
    (which may raise) and [RMS.Math.angularSeparation]. *)
Variable date2JD : TimeData -> R.
Variable jd2Date : R -> TimeData.
Variable cyXYToRADec :
  list R -> list R -> list R -> R -> R -> R -> R -> R -> R -> R -> R -> R ->
  Poly12 -> Poly12 -> option (list R * list R).
Variable angularSeparation : R -> R -> R -> R -> R.

(** [XY2CorrectedRADec(time_data, X_data, Y_data, level_data, lat, lon, Ho,
    X_res, Y_res, RA_d, dec_d, pos_angle_ref, F_scale, mag_0, mag_lev,
    x_poly_fwd, y_poly_fwd, station_ht)], up to its first [return]. *)
Definition XY2CorrectedRADec (time_data : list TimeData) (X_data Y_data : list R)
    (level_data : list float64) (lat lon Ho : R) (X_res Y_res : Z)
    (RA_d dec_d pos_angle_ref F_scale : R) (mag_0 mag_lev : float64)
    (x_poly_fwd y_poly_fwd : Poly12) (station_ht : R)
    : option (list R * list R * list R * list float64) :=
  let JD_data := date2JD <$> time_data in
  '(RA_data, dec_data) ← cyXYToRADec JD_data X_data Y_data lat lon Ho
      (IZR X_res) (IZR Y_res) RA_d dec_d pos_angle_ref F_scale
      x_poly_fwd y_poly_fwd;
  let magnitude_data := calculateMagnitudes level_data mag_0 mag_lev in
  Some (JD_data, RA_data, dec_data, magnitude_data).

(** [XY2CorrectedRADecPP(time_data, X_data, Y_data, level_data, platepar)]. *)
Definition XY2CorrectedRADecPP (time_data : list TimeData) (X_data Y_data : list R)
    (level_data : list float64) (platepar : Platepar)
    : option (list R * list R * list R * list float64) :=
  XY2CorrectedRADec time_data X_data Y_data level_data (lat platepar)
    (lon platepar) (Ho platepar) (X_res platepar) (Y_res platepar)
    (RA_d platepar) (dec_d platepar) (pos_angle_ref platepar)
    (F_scale platepar) (mag_0 platepar) (mag_lev platepar)
    (x_poly_fwd platepar) (y_poly_fwd platepar) (elev platepar).


(** [rotationWrtStandard(platepar)]. *)
Definition rotationWrtStandard (platepar : Platepar) : option R :=
  let img_mid_w := IZR (X_res platepar) / 2 in
  let img_mid_h := IZR (Y_res platepar) / 2 in
  let img_up_w := img_mid_w + 10 in
  let img_up_h := img_mid_h in
  '(_, ra, dec, _) ←
    XY2CorrectedRADecPP (replicate 2 (jd2Date (JD platepar)))
      [img_mid_w; img_up_w] [img_mid_h; img_up_h] (replicate 2 (Finite 1))
      platepar;
  ra_mid ← ra !! 0%nat;
  dec_mid ← dec !! 0%nat;
  ra_up ← ra !! 1%nat;
  dec_up ← dec !! 1%nat;
  let rot_angle := degrees (atan2 (radians dec_mid - radians dec_up)
                                  (radians ra_mid - radians ra_up)) in
  let rot_angle := pymod rot_angle 360 in
  Some rot_angle.

End PixelToSky.

(** ** The position-angle solvers

    The solvers receive a reference to a platepar object, deep-copy it and let
    a closure overwrite [pos_angle_ref] of the copy at every evaluation.
    Objects live in a store indexed by references; a computation threads the
    store and may raise. *)

Abbreviation ref := nat (only parsing).
Abbreviation Store := (gmap nat Platepar) (only parsing).

(** Store-passing computations that may raise. *)
Definition Py (A : Type) : Type := Store -> option (A * Store).

Definition py_ret {A} (a : A) : Py A := fun s => Some (a, s).

Definition py_bind {A B} (m : Py A) (k : A -> Py B) : Py B :=
  fun s => match m s with
           | Some (a, s') => k a s'
           | None => None
           end.

Notation "'do' x <~ m ; k" := (py_bind m (fun x => k))
  (at level 10, x name, m at level 100, k at level 200).

(** A value computed without touching the store; [None] raises. *)
Definition py_lift {A} (o : option A) : Py A :=
  fun s => match o with Some a => Some (a, s) | None => None end.

(** Attribute reads go through the object behind the reference. *)
Definition py_deref (r : ref) : Py Platepar :=
  fun s => match s !! r with Some o => Some (o, s) | None => None end.

(** [copy.deepcopy(platepar)]: a new object at an unused reference. *)
Definition deepcopy (r : ref) : Py ref :=
  fun s => match s !! r with
           | Some o => let r' := fresh (dom s) in Some (r', <[r' := o]> s)
           | None => None
           end.

(** [platepar.pos_angle_ref = v] through a reference. *)
Definition py_set_pos_angle_ref (r : ref) (v : R) : Py unit :=
  fun s => match s !! r with
           | Some o => Some (tt, <[r := set_pos_angle_ref o v]> s)
           | None => None
           end.

(** What [scipy.optimize.minimize] may do with its objective: a finite
    number of evaluations, each at a point chosen from the values seen so far,
    and then a result [res.x[0]]. *)
Inductive Minimizer : Type :=
  | MinResult (x : R)
  | MinEval (p : R) (k : R -> Minimizer).

Fixpoint runMinimizer (m : Minimizer) (objective : R -> Py R) : Py R :=
  match m with
  | MinResult x => py_ret x
  | MinEval p k => do v <~ objective p; runMinimizer (k v) objective
  end.

Section Solver.

(** The search started at [x0], any minimizer method. *)
Variable minimize : R -> Minimizer.

(** The rotation query being inverted: [rotationWrtHorizon] or
    [rotationWrtStandard]. *)
Variable rotation : Platepar -> option R.

(** The closure [_rotAngleResidual(params, rot_angle)]; [platepar] is the
    reference to the copy captured by the closure. *)
Definition _rotAngleResidual (platepar : ref) (params0 : R) (rot_angle : R) : Py R :=
  do u <~ py_set_pos_angle_ref platepar params0;
  do o <~ py_deref platepar;
  do rot <~ py_lift (rotation o);
  let rot_angle_computed := pymod rot 360 in
  py_ret (180 - Rabs (Rabs (rot_angle - rot_angle_computed) - 180)).

(** The common body of [rotationWrtHorizonToPosAngle(platepar, rot_angle)]
    and [rotationWrtStandardToPosAngle(platepar, rot_angle)]. *)
Definition rotationToPosAngle (platepar : ref) (rot_angle : R) : Py R :=
  do platepar <~ deepcopy platepar;
  let rot_angle := pymod rot_angle 360 in
  do o <~ py_deref platepar;
  do x <~ runMinimizer (minimize (pos_angle_ref o))
            (fun p => _rotAngleResidual platepar p rot_angle);
  py_ret (pymod x 360).

End Solver.

(** [rotationWrtHorizonToPosAngle(platepar, rot_angle)]. *)
Definition rotationWrtHorizonToPosAngle (minimize : R -> Minimizer)
    (platepar : ref) (rot_angle : R) : Py R :=
  rotationToPosAngle minimize rotationWrtHorizon platepar rot_angle.

(** [rotationWrtStandardToPosAngle(platepar, rot_angle)]. *)
Definition rotationWrtStandardToPosAngle {TimeData : Type}
    (date2JD : TimeData -> R) (jd2Date : R -> TimeData)
    (cyXYToRADec :
       list R -> list R -> list R -> R -> R -> R -> R -> R -> R -> R -> R -> R ->
       Poly12 -> Poly12 -> option (list R * list R))
    (minimize : R -> Minimizer) (platepar : ref) (rot_angle : R) : Py R :=
  rotationToPosAngle minimize (rotationWrtStandard date2JD jd2Date cyXYToRADec)
    platepar rot_angle.

(** ** The parts that are not in the sources at hand *)

(** Modelled from the spec: the Cython routine [CyFunctions.cyXYToRADec] is
    missing.  Section 4.3 describes it: rectify the pixel coordinates, turn
    the rectified offset into a radius and a polar angle, reproject around the
    reference pointing adjusted for the position angle, derive RA and Dec
    wrapped to [0,360).  That is the pure-Python path which
    [XY2CorrectedRADec] keeps after its [return] as the slow version of the
    same computation: [XY2altAz] followed by [altAz2RADec] with no UT
    correction, here on Julian dates that are already computed. *)
Definition cyXYToRADec_model (JD_data X_data Y_data : list R)
    (lat lon Ho X_res Y_res RA_d dec_d pos_angle_ref F_scale : R)
    (x_poly_fwd y_poly_fwd : Poly12) : option (list R * list R) :=
  '(az_data, alt_data) ← XY2altAz X_data Y_data lat lon RA_d dec_d Ho X_res Y_res
      pos_angle_ref F_scale x_poly_fwd y_poly_fwd;
  '(_, RA_data, dec_data) ←
    altAz2RADec (fun jd _ => jd) (fun jd _ => jd) lat lon 0 JD_data
      az_data alt_data false;
  Some (RA_data, dec_data).


(** ** The rectification as the specification words it *)

(** The 12-term polynomial with its terms in the order of the
    specification: constant, X, Y, X², XY, Y², X³, X²Y, XY², Y³, X·r, Y·r. *)
Definition specPolynomial (c : Poly12) (X Y : R) : R :=
  let r := sqrt (X ^ 2 + Y ^ 2) in
  c.[0] + c.[1] * X + c.[2] * Y + c.[3] * X ^ 2 + c.[4] * X * Y + c.[5] * Y ^ 2
  + c.[6] * X ^ 3 + c.[7] * X ^ 2 * Y + c.[8] * X * Y ^ 2 + c.[9] * Y ^ 3
  + c.[10] * X * r + c.[11] * Y * r.

(** Centre, add the polynomial of each axis, divide by the scale. *)
Definition specRectify (x_poly y_poly : Poly12) (X_res Y_res F_scale x y : R) : R * R :=
  let X := x - X_res / 2 in
  let Y := y - Y_res / 2 in
  ((X + specPolynomial x_poly X Y) / F_scale, (Y + specPolynomial y_poly X Y) / F_scale).

(** The same coefficients with the two radial ones exchanged. *)
Definition swapRadial (c : Poly12) : Poly12 :=
  mkPoly12 (c0 c) (c1 c) (c2 c) (c3 c) (c4 c) (c5 c) (c6 c) (c7 c) (c8 c) (c9 c)
           (c11 c) (c10 c).



(** The sidereal-time polynomial that [altAz2RADec] evaluates for each point
    ([hour_angle] in its loop body), in degrees. *)
Definition siderealTime (JD : R) : R :=
  let T := (JD - 2451545.0) / 36525.0 in
  pymod (280.46061837 + 360.98564736629 * (JD - 2451545.0)
         + 0.000387933 * T ^ 2 - T ^ 3 / 38710000.0) 360.

(** Two angles that point in the same direction (equal modulo a full turn). *)
Definition same_dir (a b : R) : Prop := cos a = cos b /\ sin a = sin b.

(** No distortion. *)
Definition poly_zero : Poly12 := mkPoly12 0 0 0 0 0 0 0 0 0 0 0 0.

(** ** The photometric line and its fit *)

(** [photomLine(lsp, photom_offset)]. *)
Definition photomLine (lsp photom_offset : R) : R := -2.5 * lsp + photom_offset.

(** [a - b] on two one-dimensional numpy arrays: elementwise when the
    lengths agree, broadcast when one of the two has a single element, an
    exception otherwise. *)
Definition np_sub (a b : list R) : option (list R) :=
  if decide (length a = length b) then Some (zip_with Rminus a b)
  else match a, b with
       | [x], _ => Some ((fun y => x - y) <$> b)
       | _, [y] => Some ((fun x => x - y) <$> a)
       | _, _ => None
       end.

(** [np.sum], [np.mean] and [np.std] (population standard deviation,
    [sqrt(mean(abs(a - mean(a))**2))]).  For an empty array numpy returns NaN
    with a warning; here the quotient by zero is Rocq's unspecified one. *)
Definition np_sum (a : list R) : R := foldr Rplus 0 a.

Definition np_mean (a : list R) : R := np_sum a / INR (length a).

Definition np_std (a : list R) : R :=
  sqrt (np_mean ((fun x => Rabs (x - np_mean a) ^ 2) <$> a)).

Section PhotometryFit.

(** [scipy.optimize.curve_fit(f, xdata, ydata, method='trf',
    loss='soft_l1')] is a parameter: it returns the fitted parameters (the
    covariance is discarded by the caller) or raises. *)
Variable curve_fit : (R -> R -> R) -> list R -> list R -> option (list R).

(** [photometryFit(logsum_px, catalog_mags)]; the call
    [photomLine(x, *photom_params)] raises unless there is exactly one fitted
    parameter. *)
Definition photometryFit (logsum_px catalog_mags : list R)
    : option (R * R * list R) :=
  photom_params ← curve_fit photomLine logsum_px catalog_mags;
  match photom_params with
  | [photom_offset] =>
      fit_resids ← np_sub catalog_mags
                     ((fun lsp => photomLine lsp photom_offset) <$> logsum_px);
      let fit_stddev := np_std fit_resids in
      Some (photom_offset, fit_stddev, fit_resids)
  | _ => None
  end.

End PhotometryFit.

(** ** The driver [applyAstrometryFTPdetectinfo] *)

(** [s.split(sep)] for a one-character separator. *)
Fixpoint str_split (sep : ascii) (s : string) : list string :=
  match s with
  | EmptyString => [EmptyString]
  | String c rest =>
      if Ascii.eqb c sep then EmptyString :: str_split sep rest
      else match str_split sep rest with
           | part :: parts => String c part :: parts
           | [] => [String c EmptyString]
           end
  end.

(** The name of the backup copy:
    ["".join(ftp_detectinfo_file.split('.')[:-1]) + "_uncalibrated.txt"]. *)
Definition uncalibratedName (ftp_detectinfo_file : string) : string :=
  let parts := str_split "." ftp_detectinfo_file in
  String.append (String.concat "" (take (length parts - 1) parts))
                "_uncalibrated.txt".

(** The characters of a string other than [sep], in order. *)
Fixpoint str_without (sep : ascii) (s : string) : string :=
  match s with
  | EmptyString => EmptyString
  | String c rest =>
      if Ascii.eqb c sep then str_without sep rest else String c (str_without sep rest)
  end.

(** [sep in s]. *)
Fixpoint str_contains (sep : ascii) (s : string) : bool :=
  match s with
  | EmptyString => false
  | String c rest => Ascii.eqb c sep || str_contains sep rest
  end.

(** A row of the array [meteor_picks]. *)
Record Pick : Type := mkPick {
  pick_frame : R;
  pick_X : R;
  pick_Y : R;
  pick_RA : R;
  pick_dec : R;
  pick_az : R;
  pick_alt : R;
  pick_level : R;
  pick_magnitude : float64
}.

(** [a[:, k]] on a two-dimensional array given by its rows; a row without
    column [k] raises. *)
Definition column (k : nat) (rows : list (list R)) : option (list R) :=
  mapM (fun row => row !! k) rows.

(** The boolean mask [level_data > 0]. *)
Definition level_positive (level : R) : bool := if Rlt_dec 0 level then true else false.

(** [meteor_meas[level_data > 0, :]]. *)
Definition maskRows (rows : list (list R)) (level_data : list R) : list (list R) :=
  fst <$> List.filter (fun p => level_positive p.2) (zip rows level_data).

(** The loop [for i in range(len(az_data))] that fills [az_data] and
    [alt_data]. *)
Fixpoint altAzLoop (lon lat : R) (JD_data RA_data dec_data : list R)
    (range : list nat) (az_data alt_data : list R) : option (list R * list R) :=
  match range with
  | [] => Some (az_data, alt_data)
  | i :: rest =>
      jd ← JD_data !! i;
      ra_tmp ← RA_data !! i;
      dec_tmp ← dec_data !! i;
      let '(az_tmp, alt_tmp) := raDec2AltAz jd lon lat ra_tmp dec_tmp in
      altAzLoop lon lat JD_data RA_data dec_data rest
        (<[i := az_tmp]> az_data) (<[i := alt_tmp]> alt_data)
  end.

(** [np.c_[frames, X_data, Y_data, RA_data, dec_data, az_data, alt_data,
    level_data, magnitudes]]: the columns side by side; numpy raises unless
    all have the same length. *)
Definition np_c_ (frames X_data Y_data RA_data dec_data az_data alt_data
    level_data : list R) (magnitudes : list float64) : option (list Pick) :=
  let n := length frames in
  if decide (length X_data = n /\ length Y_data = n /\ length RA_data = n
             /\ length dec_data = n /\ length az_data = n /\ length alt_data = n
             /\ length level_data = n /\ length magnitudes = n)
  then mapM (fun i =>
         frame ← frames !! i; x ← X_data !! i; y ← Y_data !! i;
         ra ← RA_data !! i; dec ← dec_data !! i; az ← az_data !! i;
         alt ← alt_data !! i; level ← level_data !! i; mag ← magnitudes !! i;
         Some (mkPick frame x y ra dec az alt level mag)) (seq 0 n)
  else None.

Section Driver.

Context {TimeData DateTime : Type}.

(** Parameters: [Conversions.date2JD], [CyFunctions.cyXYToRADec], and the
    date arithmetic of the standard library,
    [t = time_beg + datetime.timedelta(seconds=s)] turned into the list
    [[t.year, ..., int(t.microsecond/1000)]] (which may raise). *)
Variable date2JD : TimeData -> R.
Variable cyXYToRADec :
  list R -> list R -> list R -> R -> R -> R -> R -> R -> R -> R -> R -> R ->
  Poly12 -> Poly12 -> option (list R * list R).
Variable timeAfter : DateTime -> R -> option TimeData.

(** The body of the loop [for meteor in meteor_data] of
    [applyAstrometryFTPdetectinfo], from [np.array(meteor_meas)] to
    [meteor_picks]; [time_beg] is [filenameToDatetime(ff_name)].  An array
    without rows is one-dimensional, and [meteor_meas[:, 8]] raises on it. *)
Definition meteorPicks (platepar : Platepar) (time_beg : DateTime) (fps : R)
    (meteor_meas : list (list R)) : option (list Pick) :=
  level_data ← (match meteor_meas with [] => None | _ => column 8 meteor_meas end);
  let meteor_meas := maskRows meteor_meas level_data in
  frames ← column 1 meteor_meas;
  X_data ← column 2 meteor_meas;
  Y_data ← column 3 meteor_meas;
  level_data ← column 8 meteor_meas;
  time_data ← mapM (fun frame_n => timeAfter time_beg (frame_n / fps)) frames;
  '(JD_data, RA_data, dec_data, magnitudes) ←
    XY2CorrectedRADecPP date2JD cyXYToRADec time_data X_data Y_data
      (Finite <$> level_data) platepar;
  let az_data := zeros_like RA_data in
  let alt_data := zeros_like RA_data in
  '(az_data, alt_data) ←
    altAzLoop (lon platepar) (lat platepar) JD_data RA_data dec_data
      (seq 0 (length az_data)) az_data alt_data;
  np_c_ frames X_data Y_data RA_data dec_data az_data alt_data level_data
    magnitudes.

End Driver.

(** ** Sky to pixel *)

Section SkyToPixel.

(** The Cython routine [CyFunctions.cyRaDecToCorrectedXY] is absent from the
    sources at hand and taken as a parameter (it may raise). *)
Variable cyRaDecToCorrectedXY :
  list R -> list R -> R -> R -> R -> R -> R -> R -> R -> R -> R ->
  Poly12 -> Poly12 -> option (list R * list R).

(** [raDecToCorrectedXY(RA_data, dec_data, jd, lat, lon, x_res, y_res, RA_d,
    dec_d, ref_jd, pos_angle_ref, F_scale, x_poly_rev, y_poly_rev,
    UT_corr=0)], up to its first [return]. *)
Definition raDecToCorrectedXY (RA_data dec_data : list R)
    (jd lat lon : R) (x_res y_res : Z)
    (RA_d dec_d ref_jd pos_angle_ref F_scale : R)
    (x_poly_rev y_poly_rev : Poly12) (UT_corr : R) : option (list R * list R) :=
  let '(az_centre, alt_centre) := raDec2AltAz ref_jd lon lat RA_d dec_d in
  let jd := jd - UT_corr / 24.0 in
  cyRaDecToCorrectedXY RA_data dec_data jd lat lon (IZR x_res) (IZR y_res)
    az_centre alt_centre pos_angle_ref F_scale x_poly_rev y_poly_rev.

(** [raDecToCorrectedXYPP(RA_data, dec_data, jd, platepar)]. *)
Definition raDecToCorrectedXYPP (RA_data dec_data : list R) (jd : R)
    (platepar : Platepar) : option (list R * list R) :=
  raDecToCorrectedXY RA_data dec_data jd (lat platepar) (lon platepar)
    (X_res platepar) (Y_res platepar) (RA_d platepar) (dec_d platepar)
    (JD platepar) (pos_angle_ref platepar) (F_scale platepar)
    (x_poly_rev platepar) (y_poly_rev platepar) (UT_corr platepar).

End SkyToPixel.

(** The same platepar pointing at right ascension [v]. *)
Definition set_RA_d (platepar : Platepar) (v : R) : Platepar :=
  mkPlatepar (lat platepar) (lon platepar) (elev platepar) v
    (dec_d platepar) (JD platepar) (Ho platepar) (X_res platepar) (Y_res platepar)
    (pos_angle_ref platepar) (F_scale platepar) (mag_0 platepar) (mag_lev platepar)
    (x_poly_fwd platepar) (y_poly_fwd platepar) (x_poly_rev platepar)
    (y_poly_rev platepar) (UT_corr platepar).

(** The same platepar with UT correction [v]. *)
Definition set_UT_corr (platepar : Platepar) (v : R) : Platepar :=
  mkPlatepar (lat platepar) (lon platepar) (elev platepar) (RA_d platepar)
    (dec_d platepar) (JD platepar) (Ho platepar) (X_res platepar) (Y_res platepar)
    (pos_angle_ref platepar) (F_scale platepar) (mag_0 platepar) (mag_lev platepar)
    (x_poly_fwd platepar) (y_poly_fwd platepar) (x_poly_rev platepar)
    (y_poly_rev platepar) v.

(** ** Notions used to state the properties *)



(** ** Two statements of the code in float64 arithmetic

    Where a claim turns on the rounding of float64, the statement that
    decides it is also given on binary64 floats. *)




(** ** Sample data *)

(** A camera at 45N 15E with a 1280x720 sensor, no distortion. *)
Definition platepar_sample : Platepar :=
  mkPlatepar 45 15 100 10 20 2451545 30 1280 720 0 40
             (Finite (-2.5)) (Finite 8) poly_zero poly_zero poly_zero poly_zero 0.


(** A search that evaluates its objective at the seed and one degree further
    and returns the better of the two points. *)
Definition minimize_sample (x0 : R) : Minimizer :=
  MinEval x0 (fun v0 =>
    MinEval (x0 + 1) (fun v1 =>
      MinResult (if Rle_dec v0 v1 then x0 else x0 + 1))).

(** * Properties *)

(** ** Arithmetic of the primitives *)

Lemma pymod_bound (x m : R) : 0 < m -> 0 <= pymod x m < m.
Proof.
  intros Hm. unfold pymod.
  pose proof (Zfloor_bound (x / m)) as [Hlo Hhi].
  assert (Hx : x = m * (x / m)) by (field; lra).
  split.
  - apply (Rmult_le_compat_l m) in Hlo; [|lra]. lra.
  - apply (Rmult_lt_compat_l m) in Hhi; [|lra]. lra.
Qed.

Lemma pymod_add_mult (x m : R) (k : Z) : m <> 0 -> pymod (x + m * IZR k) m = pymod x m.
Proof.
  intros Hm. unfold pymod.
  replace ((x + m * IZR k) / m) with (x / m + IZR k) by (field; lra).
  rewrite Zfloor_addz, plus_IZR. ring.
Qed.

Lemma pymod_small (x m : R) : 0 <= x < m -> pymod x m = x.
Proof.
  intros [Hlo Hhi]. unfold pymod.
  assert (Hm : 0 < m) by lra.
  rewrite (Zfloor_eq 0 (x / m)).
  - simpl. ring.
  - simpl. split.
    + apply Rmult_le_pos; [lra|]. left. now apply Rinv_0_lt_compat.
    + apply (Rmult_lt_reg_r m); [lra|]. unfold Rdiv. rewrite Rmult_assoc, Rinv_l; lra.
Qed.



Lemma atan2_bound (y x : R) : - PI < atan2 y x <= PI.
Proof.
  pose proof PI_RGT_0 as Hpi.
  unfold atan2.
  destruct (Rlt_dec 0 x) as [Hx|Hx].
  - pose proof (atan_bound (y / x)). lra.
  - destruct (Rlt_dec x 0) as [Hx'|Hx'].
    + pose proof (atan_bound (y / x)) as Hb.
      assert (Hinv : / x < 0) by now apply Rinv_lt_0_compat.
      destruct (Rle_dec 0 y) as [Hy|Hy].
      * assert (y / x <= 0) by (unfold Rdiv; nra).
        assert (atan (y / x) <= 0).
        { rewrite <- atan_0. destruct H as [H|H].
          - left. now apply atan_increasing.
          - rewrite H. lra. }
        lra.
      * assert (0 < y / x) by (unfold Rdiv; nra).
        assert (0 < atan (y / x)).
        { rewrite <- atan_0. now apply atan_increasing. }
        lra.
    + destruct (Rlt_dec 0 y); [lra|]. destruct (Rlt_dec y 0); lra.
Qed.

Lemma degrees_bound (a lo hi : R) :
  lo < a <= hi -> degrees lo < degrees a <= degrees hi.
Proof.
  pose proof PI_RGT_0 as Hpi. intros [H1 H2]. unfold degrees.
  assert (Hk : 0 < 180 / PI) by (apply Rdiv_lt_0_compat; lra).
  unfold Rdiv in *. rewrite !Rmult_assoc. split.
  - apply Rmult_lt_compat_r; lra.
  - apply Rmult_le_compat_r; lra.
Qed.

Lemma degrees_PI : degrees PI = 180.
Proof. unfold degrees. field. apply PI_neq0. Qed.

Lemma degrees_opp (a : R) : degrees (- a) = - degrees a.
Proof. unfold degrees. field. apply PI_neq0. Qed.

(** ** The array-filling loops *)

Lemma vstackT_zip (X_data Y_data : list R) :
  length X_data = length Y_data -> vstackT X_data Y_data = Some (zip X_data Y_data).
Proof.
  revert Y_data. induction X_data as [|x X' IH]; intros [|y Y'] Hlen;
    simpl in *; try discriminate; [reflexivity|].
  rewrite IH by lia. reflexivity.
Qed.

Lemma vstackT_Some_length (X_data Y_data : list R) rows :
  vstackT X_data Y_data = Some rows -> length X_data = length Y_data.
Proof.
  revert Y_data rows. induction X_data as [|x X' IH]; intros [|y Y'] rows H;
    simpl in *; try discriminate; [reflexivity|].
  destruct (vstackT X' Y') as [rows'|] eqn:E; [|discriminate].
  f_equal. eauto.
Qed.

Lemma vstackT_mismatch (X_data Y_data : list R) :
  length X_data <> length Y_data -> vstackT X_data Y_data = None.
Proof.
  intros Hne. destruct (vstackT X_data Y_data) eqn:E; [|reflexivity].
  apply vstackT_Some_length in E. contradiction.
Qed.

(** The loop overwrites the first [length rows] cells after the counter with
    the values computed from the rows, in order. *)
Lemma foldl_store2 (body : R -> R -> R * R) (rows : list (R * R)) :
  forall (d1 d2 p1 p2 : list R),
    length d1 = length d2 ->
    (length rows <= length p1)%nat -> (length rows <= length p2)%nat ->
    foldl (store2 body) (mkLoop2 (length d1) (d1 ++ p1) (d2 ++ p2)) rows
    = mkLoop2 (length d1 + length rows)
        (d1 ++ map (fun row => (body row.1 row.2).1) rows ++ drop (length rows) p1)
        (d2 ++ map (fun row => (body row.1 row.2).2) rows ++ drop (length rows) p2).
Proof.
  induction rows as [|row rows IH]; intros d1 d2 p1 p2 Hd H1 H2; simpl.
  - rewrite Nat.add_0_r. reflexivity.
  - destruct p1 as [|a1 p1]; [simpl in H1; lia|].
    destruct p2 as [|a2 p2]; [simpl in H2; lia|].
    simpl in H1, H2.
    unfold store2 at 2. simpl.
    destruct (body row.1 row.2) as [a b] eqn:Eb. simpl.
    assert (E1 : <[length d1 := a]> (d1 ++ a1 :: p1) = (d1 ++ [a]) ++ p1).
    { rewrite insert_app_r_alt by lia. rewrite Nat.sub_diag, <- app_assoc. reflexivity. }
    assert (E2 : <[length d1 := b]> (d2 ++ a2 :: p2) = (d2 ++ [b]) ++ p2).
    { rewrite insert_app_r_alt by lia. rewrite Hd, Nat.sub_diag, <- app_assoc. reflexivity. }
    rewrite E1, E2.
    replace (S (length d1)) with (length (d1 ++ [a])) by (rewrite length_app; simpl; lia).
    rewrite IH; [|rewrite !length_app; simpl; lia|lia|lia].
    rewrite length_app. simpl. rewrite <- !app_assoc. simpl.
    f_equal. lia.
Qed.

Lemma loop2_zeros (body : R -> R -> R * R) (rows : list (R * R)) :
  loop2 body rows (replicate (length rows) 0) (replicate (length rows) 0)
  = mkLoop2 (length rows) (map (fun row => (body row.1 row.2).1) rows)
                          (map (fun row => (body row.1 row.2).2) rows).
Proof.
  unfold loop2.
  pose proof (foldl_store2 body rows [] [] (replicate (length rows) 0)
                (replicate (length rows) 0)) as H.
  simpl in H. rewrite H; [|reflexivity|rewrite length_replicate; lia..].
  rewrite drop_ge by (rewrite length_replicate; lia).
  rewrite !app_nil_r. reflexivity.
Qed.

(** [applyFieldCorrection] is the pointwise map of its loop body. *)
Lemma applyFieldCorrection_map (x_poly_fwd y_poly_fwd : Poly12)
    (X_res Y_res F_scale : R) (X_data Y_data : list R) :
  length X_data = length Y_data ->
  applyFieldCorrection x_poly_fwd y_poly_fwd X_res Y_res F_scale X_data Y_data
  = Some (zip_with (fun x y => (correctPoint x_poly_fwd y_poly_fwd X_res Y_res F_scale x y).1)
            X_data Y_data,
          zip_with (fun x y => (correctPoint x_poly_fwd y_poly_fwd X_res Y_res F_scale x y).2)
            X_data Y_data).
Proof.
  intros Hlen. unfold applyFieldCorrection, zeros_like.
  rewrite (vstackT_zip _ _ Hlen). simpl.
  assert (Hz : length (zip X_data Y_data) = length X_data)
    by (rewrite length_zip_with; lia).
  rewrite <- Hlen, <- Hz, loop2_zeros. simpl.
  f_equal. f_equal.
  - clear. revert Y_data. induction X_data as [|x X' IH]; intros [|y Y'];
      simpl; try reflexivity. now rewrite IH.
  - clear. revert Y_data. induction X_data as [|x X' IH]; intros [|y Y'];
      simpl; try reflexivity. now rewrite IH.
Qed.

(** Arrays of different lengths make [np.vstack] raise. *)
Lemma applyFieldCorrection_mismatch (x_poly_fwd y_poly_fwd : Poly12)
    (X_res Y_res F_scale : R) (X_data Y_data : list R) :
  length X_data <> length Y_data ->
  applyFieldCorrection x_poly_fwd y_poly_fwd X_res Y_res F_scale X_data Y_data = None.
Proof.
  intros Hne. unfold applyFieldCorrection.
  now rewrite (vstackT_mismatch _ _ Hne).
Qed.

Lemma correctPoint_spec (x_poly_fwd y_poly_fwd : Poly12) (X_res Y_res F_scale x y : R) :
  correctPoint x_poly_fwd y_poly_fwd X_res Y_res F_scale x y
  = specRectify x_poly_fwd (swapRadial y_poly_fwd) X_res Y_res F_scale x y.
Proof.
  unfold correctPoint, specRectify, specPolynomial, swapRadial. simpl.
  f_equal; unfold Rdiv; ring.
Qed.

(** ** C1: the terms of the forward field correction *)

Lemma applyFieldCorrection_points (x_poly_fwd y_poly_fwd : Poly12)
    (X_res Y_res F_scale : R) (points : list (R * R)) :
  applyFieldCorrection x_poly_fwd y_poly_fwd X_res Y_res F_scale points.*1 points.*2
  = Some ((fun p => (correctPoint x_poly_fwd y_poly_fwd X_res Y_res F_scale p.1 p.2).1) <$> points,
          (fun p => (correctPoint x_poly_fwd y_poly_fwd X_res Y_res F_scale p.1 p.2).2) <$> points).
Proof.
  rewrite applyFieldCorrection_map by (now rewrite !length_fmap).
  assert (Hzip : forall (g : R -> R -> R),
             zip_with g points.*1 points.*2 = (fun p => g p.1 p.2) <$> points).
  { intros g. clear. induction points as [|[x y] points IH]; simpl; [reflexivity|].
    f_equal. exact IH. }
  rewrite !Hzip. reflexivity.
Qed.

(** C1, amended.  For every list of input points, [applyFieldCorrection]
    returns, point by point, the centred coordinate plus the 12-term
    polynomial of its axis, divided by [F_scale].  For the X axis the terms
    are in the order constant, X, Y, X², XY, Y², X³, X²Y, XY², Y³, X·r, Y·r;
    for the Y axis the two radial terms come in the other order: coefficient
    10 multiplies Y·r and coefficient 11 multiplies X·r. *)
Theorem C1_field_correction_terms (x_poly_fwd y_poly_fwd : Poly12)
    (X_res Y_res F_scale : R) (points : list (R * R)) :
  applyFieldCorrection x_poly_fwd y_poly_fwd X_res Y_res F_scale points.*1 points.*2
  = Some ((fun p => let X := p.1 - X_res / 2 in
                    let Y := p.2 - Y_res / 2 in
                    (X + specPolynomial x_poly_fwd X Y) / F_scale) <$> points,
          (fun p => let X := p.1 - X_res / 2 in
                    let Y := p.2 - Y_res / 2 in
                    (Y + specPolynomial (swapRadial y_poly_fwd) X Y) / F_scale) <$> points).
Proof.
  rewrite applyFieldCorrection_points.
  f_equal. f_equal; apply list_fmap_ext; intros i p _;
    rewrite correctPoint_spec; reflexivity.
Qed.

(** C1 as stated fails on the Y axis: with the single coefficient
    [y_poly_fwd[10] = 1], no offset and unit scale, the point (3, 4) (r = 5) is
    sent to Y = 4 + 4·5 = 24 by the code, where the stated order (X·r at
    position 10) gives 4 + 3·5 = 19. *)
Lemma C1_counterexample :
  let zero := mkPoly12 0 0 0 0 0 0 0 0 0 0 0 0 in
  let y_poly := mkPoly12 0 0 0 0 0 0 0 0 0 0 1 0 in
  applyFieldCorrection zero y_poly 0 0 1 [3] [4] = Some ([3], [24])
  /\ specRectify zero y_poly 0 0 1 3 4 = (3, 19)
  /\ applyFieldCorrection zero y_poly 0 0 1 [3] [4]
     <> Some ([(specRectify zero y_poly 0 0 1 3 4).1],
              [(specRectify zero y_poly 0 0 1 3 4).2]).
Proof.
  intros zero y_poly.
  assert (Hr : sqrt ((3 - 0 / 2) ^ 2 + (4 - 0 / 2) ^ 2) = 5).
  { replace ((3 - 0 / 2) ^ 2 + (4 - 0 / 2) ^ 2) with (5 * 5) by lra.
    apply sqrt_square. lra. }
  assert (Hcode : applyFieldCorrection zero y_poly 0 0 1 [3] [4] = Some ([3], [24])).
  { rewrite applyFieldCorrection_map by reflexivity. cbn [zip_with].
    unfold correctPoint. cbn [fst snd]. rewrite Hr.
    subst zero y_poly. cbn [coef c0 c1 c2 c3 c4 c5 c6 c7 c8 c9 c10 c11].
    f_equal. f_equal; f_equal; lra. }
  assert (Hspec : specRectify zero y_poly 0 0 1 3 4 = (3, 19)).
  { unfold specRectify, specPolynomial. cbv zeta. rewrite Hr.
    subst zero y_poly. cbn [coef c0 c1 c2 c3 c4 c5 c6 c7 c8 c9 c10 c11].
    f_equal; lra. }
  split; [exact Hcode|]. split; [exact Hspec|].
  rewrite Hcode, Hspec. simpl. intros H. inversion H. lra.
Qed.

(** ** C9: bulk rectification is the pointwise map of the single-point one *)

(** C9.  For coordinate arrays of the same length, the i-th elements of the
    arrays returned by [applyFieldCorrection] are the values it returns on the
    length-1 arrays holding the i-th point alone. *)
Theorem C9_bulk_is_pointwise (x_poly_fwd y_poly_fwd : Poly12)
    (X_res Y_res F_scale : R) (X_data Y_data : list R) :
  length X_data = length Y_data ->
  exists X_corrected Y_corrected,
    applyFieldCorrection x_poly_fwd y_poly_fwd X_res Y_res F_scale X_data Y_data
      = Some (X_corrected, Y_corrected)
    /\ length X_corrected = length X_data
    /\ length Y_corrected = length X_data
    /\ forall (i : nat) (x y : R),
         X_data !! i = Some x -> Y_data !! i = Some y ->
         exists xc yc,
           X_corrected !! i = Some xc /\ Y_corrected !! i = Some yc
           /\ applyFieldCorrection x_poly_fwd y_poly_fwd X_res Y_res F_scale [x] [y]
              = Some ([xc], [yc]).
Proof.
  intros Hlen. eexists _, _. split; [apply applyFieldCorrection_map, Hlen|].
  rewrite !length_zip_with.
  split; [lia|]. split; [lia|].
  intros i x y Hx Hy.
  eexists _, _. rewrite !lookup_zip_with, Hx, Hy. simpl.
  split; [reflexivity|]. split; [reflexivity|].
  rewrite applyFieldCorrection_map by reflexivity. reflexivity.
Qed.

Lemma C9_bulk_is_pointwise_witness :
  let p := mkPoly12 0 1 0 0 0 0 0 0 0 0 0 0 in
  length [1; 2] = length [3; 4]
  /\ exists X_corrected Y_corrected,
    applyFieldCorrection p p 0 0 1 [1; 2] [3; 4] = Some (X_corrected, Y_corrected)
    /\ length X_corrected = length [1; 2]
    /\ length Y_corrected = length [1; 2]
    /\ forall (i : nat) (x y : R),
         [1; 2] !! i = Some x -> [3; 4] !! i = Some y ->
         exists xc yc,
           X_corrected !! i = Some xc /\ Y_corrected !! i = Some yc
           /\ applyFieldCorrection p p 0 0 1 [x] [y] = Some ([xc], [yc]).
Proof.
  intros p. split; [reflexivity|].
  apply (C9_bulk_is_pointwise p p 0 0 1 [1; 2] [3; 4]). reflexivity.
Defined.

(** ** The end point of the azimuth of [raDec2AltAz] *)

Lemma degrees_le (a b : R) : a <= b -> degrees a <= degrees b.
Proof.
  pose proof PI_RGT_0 as Hpi. intros H. unfold degrees, Rdiv.
  rewrite !Rmult_assoc. apply Rmult_le_compat_r; [|exact H].
  left. apply Rmult_lt_0_compat; [lra|]. now apply Rinv_0_lt_compat.
Qed.

Lemma degrees_mult (k : R) : degrees (k * PI) = k * 180.
Proof. unfold degrees. field. apply PI_neq0. Qed.


(** ** C6: the zenith guard of the horizontal-to-equatorial conversion *)

Lemma nudgeAltitude_idem (altitude : R) :
  nudgeAltitude (nudgeAltitude altitude) = nudgeAltitude altitude.
Proof.
  unfold nudgeAltitude.
  destruct (Req_dec_T altitude 90) as [H|H].
  - destruct (Req_dec_T 89.9999 90); [lra|reflexivity].
  - destruct (Req_dec_T altitude 90); [contradiction|reflexivity].
Qed.

Lemma nudgeAltitude_neq_90 (altitude : R) : nudgeAltitude altitude <> 90.
Proof.
  unfold nudgeAltitude. destruct (Req_dec_T altitude 90); [lra|assumption].
Qed.

Lemma raDecPoint_nudge (lat lon JD azimuth altitude : R) :
  raDecPoint lat lon JD azimuth (nudgeAltitude altitude)
  = raDecPoint lat lon JD azimuth altitude.
Proof. unfold raDecPoint. now rewrite nudgeAltitude_idem. Qed.

Lemma vstackT_fmap_r (f : R -> R) (A B : list R) :
  vstackT A (f <$> B)
  = fmap (M:=option) (fmap (M:=list) (fun row : R * R => (row.1, f row.2))) (vstackT A B).
Proof.
  revert B. induction A as [|a A IH]; intros [|b B]; simpl; try reflexivity.
  rewrite IH. destruct (vstackT A B); reflexivity.
Qed.

Section ZenithGuard.

Context {TimeData : Type}.
Variable date2JD : TimeData -> R -> R.
Variable datetime2JD : TimeData -> R -> R.

Lemma altAz2RADec_loop_nudge (lat lon UT_corr : R) (time_data : list TimeData)
    (dt_time : bool) (rows : list (R * R)) :
  forall st,
    altAz2RADec_loop date2JD datetime2JD lat lon UT_corr time_data dt_time
      ((fun row : R * R => (row.1, nudgeAltitude row.2)) <$> rows) st
    = altAz2RADec_loop date2JD datetime2JD lat lon UT_corr time_data dt_time rows st.
Proof.
  induction rows as [|[azimuth altitude] rows IH]; intros st; [reflexivity|].
  rewrite fmap_cons. cbn [fst snd altAz2RADec_loop].
  destruct (time_data !! loop3_i st) as [entry|]; cbn [mbind option_bind]; [|reflexivity].
  rewrite raDecPoint_nudge.
  destruct (raDecPoint _ _ _ azimuth altitude) as [RA dec].
  apply IH.
Qed.

(** C6.  [altAz2RADec] replaces an altitude of exactly 90 degrees by
    89.9999 before the conversion to radians: the output for an altitude
    array is the output for the same array with every 90 replaced by
    89.9999, a point at altitude 90 gives what it gives at 89.9999, and the
    altitude that reaches the trigonometry is never 90, so that the cosine
    of the altitude, which vanishes at the zenith and makes the hour angle
    degenerate, is positive there. *)
Theorem C6_zenith_guard (lat lon UT_corr : R) (time_data : list TimeData)
    (azimuth_data altitude_data : list R) (dt_time : bool) :
  altAz2RADec date2JD datetime2JD lat lon UT_corr time_data azimuth_data
    altitude_data dt_time
  = altAz2RADec date2JD datetime2JD lat lon UT_corr time_data azimuth_data
      (nudgeAltitude <$> altitude_data) dt_time
  /\ nudgeAltitude 90 = 89.9999
  /\ (forall JD azimuth : R,
        raDecPoint lat lon JD azimuth 90 = raDecPoint lat lon JD azimuth 89.9999)
  /\ (forall JD azimuth altitude : R,
        raDecPoint lat lon JD azimuth altitude
        = raDecTrig lat lon JD azimuth (nudgeAltitude altitude)
        /\ nudgeAltitude altitude <> 90)
  /\ 0 < cos (radians (nudgeAltitude 90)).
Proof.
  assert (H90 : nudgeAltitude 90 = 89.9999).
  { unfold nudgeAltitude. destruct (Req_dec_T 90 90); [reflexivity|lra]. }
  split; [|split; [exact H90|split; [|split]]].
  - unfold altAz2RADec. rewrite vstackT_fmap_r.
    destruct (vstackT azimuth_data altitude_data) as [rows|]; simpl; [|reflexivity].
    now rewrite altAz2RADec_loop_nudge.
  - intros JD0 azimuth. rewrite <- (raDecPoint_nudge _ _ _ _ 90), H90. reflexivity.
  - intros JD0 azimuth altitude. split; [reflexivity|apply nudgeAltitude_neq_90].
  - rewrite H90. pose proof PI_RGT_0 as Hpi.
    apply cos_gt_0; unfold radians; lra.
Qed.

End ZenithGuard.

(** ** C7: levels to magnitudes *)

Lemma foldl_store_enumerate {A B} (g : A -> B) (l : list A) :
  forall (d p : list B),
    (length l <= length p)%nat ->
    foldl (fun out '(i, x) => <[i := g x]> out) (d ++ p)
          (imap (fun i x => ((length d + i)%nat, x)) l)
    = d ++ (g <$> l) ++ drop (length l) p.
Proof.
  induction l as [|x l IH]; intros d p Hlen; simpl; [reflexivity|].
  destruct p as [|b p]; [simpl in Hlen; lia|]. simpl in Hlen.
  rewrite insert_app_r. simpl.
  replace (d ++ g x :: p) with ((d ++ [g x]) ++ p) by (rewrite <- app_assoc; reflexivity).
  rewrite (imap_ext _ (fun i y => ((length (d ++ [g x]) + i)%nat, y))).
  - rewrite IH by lia. rewrite <- app_assoc. reflexivity.
  - intros i y _. simpl. rewrite length_app. simpl. f_equal. lia.
Qed.

(** [calculateMagnitudes] never raises and is the elementwise map of
    [mag_0*log10(level) + mag_lev]. *)
Lemma calculateMagnitudes_map (level_data : list float64) (mag_0 mag_lev : float64) :
  calculateMagnitudes level_data mag_0 mag_lev
  = (fun level => f64_add (f64_mul mag_0 (f64_log10 level)) mag_lev) <$> level_data.
Proof.
  unfold calculateMagnitudes, enumerate.
  pose proof (foldl_store_enumerate
                (fun level => f64_add (f64_mul mag_0 (f64_log10 level)) mag_lev)
                level_data [] (replicate (length level_data) (Finite 0))) as H.
  specialize (H ltac:(rewrite length_replicate; lia)).
  rewrite drop_ge, app_nil_r in H by (rewrite length_replicate; lia).
  exact H.
Qed.

(** C7, amended.  [calculateMagnitudes] does not raise: it returns an array
    as long as [level_data].  For an entry with level > 0 the output entry is
    [mag_0*log10(level) + mag_lev] (the real number slope·log10(level) + offset
    when slope and offset are finite).  For an entry with a non-positive level
    the output entry is not a finite number: it is NaN or an infinity of
    either sign (plus infinity, for instance, for level 0 and a negative
    slope). *)
Theorem C7_levels_to_magnitude (level_data : list float64) (mag_0 mag_lev : float64)
    (i : nat) (level : R) :
  level_data !! i = Some (Finite level) ->
  length (calculateMagnitudes level_data mag_0 mag_lev) = length level_data
  /\ exists magnitude,
       calculateMagnitudes level_data mag_0 mag_lev !! i = Some magnitude
       /\ (0 < level ->
           magnitude = f64_add (f64_mul mag_0 (Finite (ln level / ln 10))) mag_lev
           /\ forall slope offset : R,
                mag_0 = Finite slope -> mag_lev = Finite offset ->
                magnitude = Finite (slope * (ln level / ln 10) + offset))
       /\ (level <= 0 -> f64_is_finite magnitude = false).
Proof.
  intros Hi. rewrite calculateMagnitudes_map, length_fmap.
  split; [reflexivity|].
  eexists. rewrite list_lookup_fmap, Hi. simpl.
  split; [reflexivity|]. split.
  - intros Hpos. destruct (Rlt_dec 0 level) as [_|H]; [|contradiction].
    split; [reflexivity|]. intros slope offset -> ->. reflexivity.
  - intros Hneg. destruct (Rlt_dec 0 level) as [H|_]; [lra|].
    destruct (Rlt_dec level 0) as [_|_].
    + destruct mag_0; reflexivity.
    + destruct mag_0 as [s| | |], mag_lev as [o| | |]; simpl;
        unfold f64_scale_inf; try reflexivity;
        destruct (Rlt_dec 0 s); try reflexivity;
        destruct (Rlt_dec s 0); reflexivity.
Qed.

Lemma C7_levels_to_magnitude_witness :
  [Finite 10; Finite 0] !! 0%nat = Some (Finite 10)
  /\ exists magnitude,
       calculateMagnitudes [Finite 10; Finite 0] (Finite (-2.5)) (Finite 5) !! 0%nat
         = Some magnitude
       /\ (0 < 10 -> magnitude = Finite (-2.5 * (ln 10 / ln 10) + 5)).
Proof.
  split; [reflexivity|].
  destruct (C7_levels_to_magnitude [Finite 10; Finite 0] (Finite (-2.5)) (Finite 5)
              0%nat 10 eq_refl) as (_ & magnitude & Hm & Hpos & _).
  exists magnitude. split; [exact Hm|].
  intros H. destruct (Hpos H) as [_ Hfin]. apply Hfin; reflexivity.
Defined.

(** C7 as stated fails for the usual slope: a level of 0 with slope -2.5
    gives plus infinity, which is neither NaN nor minus infinity. *)
Lemma C7_counterexample :
  calculateMagnitudes [Finite 0] (Finite (-2.5)) (Finite 0) = [PosInf]
  /\ ~ (forall magnitude,
          calculateMagnitudes [Finite 0] (Finite (-2.5)) (Finite 0) !! 0%nat
            = Some magnitude ->
          magnitude = NaN \/ magnitude = NegInf).
Proof.
  assert (H : calculateMagnitudes [Finite 0] (Finite (-2.5)) (Finite 0) = [PosInf]).
  { rewrite calculateMagnitudes_map. simpl.
    destruct (Rlt_dec 0 0) as [H|_]; [lra|].
    destruct (Rlt_dec 0 0) as [H|_]; [lra|]. simpl.
    unfold f64_scale_inf.
    destruct (Rlt_dec 0 (-2.5)) as [H|_]; [lra|].
    destruct (Rlt_dec (-2.5) 0) as [_|H]; [reflexivity|lra]. }
  split; [exact H|].
  intros Hall. rewrite H in Hall.
  destruct (Hall PosInf eq_refl); discriminate.
Qed.

(** ** C10: photometry and astrometry do not interfere *)

Section NonInterference.

Context {TimeData : Type}.
Variable date2JD : TimeData -> R.
Variable cyXYToRADec :
  list R -> list R -> list R -> R -> R -> R -> R -> R -> R -> R -> R -> R ->
  Poly12 -> Poly12 -> option (list R * list R).

(** C10.  The magnitudes returned by [XY2CorrectedRADec] are
    [calculateMagnitudes] of the levels and the two photometric
    coefficients: two runs that return and share these three inputs return
    the same magnitudes whatever their other inputs are; and a run that
    returns still returns, with the same JD, RA and Dec arrays, when only
    its level array is replaced. *)
Theorem C10_photometry_astrometry_independent
    (time_data time_data' : list TimeData) (X_data Y_data X_data' Y_data' : list R)
    (level_data level_data' : list float64) (lat lon Ho : R) (X_res Y_res : Z)
    (RA_d dec_d pos_angle_ref F_scale : R) (mag_0 mag_lev : float64)
    (x_poly_fwd y_poly_fwd : Poly12) (station_ht : R)
    (JD_data RA_data dec_data : list R) (magnitude_data : list float64)
    (JD_data' RA_data' dec_data' : list R) (magnitude_data' : list float64) :
  XY2CorrectedRADec date2JD cyXYToRADec time_data X_data Y_data level_data
    lat lon Ho X_res Y_res RA_d dec_d pos_angle_ref F_scale mag_0 mag_lev
    x_poly_fwd y_poly_fwd station_ht
    = Some (JD_data, RA_data, dec_data, magnitude_data) ->
  XY2CorrectedRADec date2JD cyXYToRADec time_data' X_data' Y_data' level_data
    lat lon Ho X_res Y_res RA_d dec_d pos_angle_ref F_scale mag_0 mag_lev
    x_poly_fwd y_poly_fwd station_ht
    = Some (JD_data', RA_data', dec_data', magnitude_data') ->
  magnitude_data = magnitude_data'
  /\ magnitude_data = calculateMagnitudes level_data mag_0 mag_lev
  /\ XY2CorrectedRADec date2JD cyXYToRADec time_data X_data Y_data level_data'
       lat lon Ho X_res Y_res RA_d dec_d pos_angle_ref F_scale mag_0 mag_lev
       x_poly_fwd y_poly_fwd station_ht
     = Some (JD_data, RA_data, dec_data,
             calculateMagnitudes level_data' mag_0 mag_lev).
Proof.
  unfold XY2CorrectedRADec. intros H1 H2.
  destruct (cyXYToRADec (date2JD <$> time_data) X_data Y_data _ _ _ _ _ _ _ _ _ _ _)
    as [[ra dec]|]; simpl in *; [|discriminate].
  destruct (cyXYToRADec (date2JD <$> time_data') X_data' Y_data' _ _ _ _ _ _ _ _ _ _ _)
    as [[ra' dec']|]; simpl in *; [|discriminate].
  inversion H1; subst. inversion H2; subst. auto.
Qed.

End NonInterference.

Lemma C10_photometry_astrometry_independent_witness :
  let date2JD := fun t : R => t in
  let cy := fun (JD X Y : list R) (_ _ _ _ _ _ _ _ _ : R) (_ _ : Poly12) => Some (X, Y) in
  let p := mkPoly12 0 0 0 0 0 0 0 0 0 0 0 0 in
  let run := fun (time_data X_data Y_data : list R) (level_data : list float64) =>
    XY2CorrectedRADec date2JD cy time_data X_data Y_data level_data
      45 15 0 1280 720 10 20 30 40 (Finite (-2.5)) (Finite 8) p p 100 in
  run [1] [2] [3] [Finite 4]
    = Some ([1], [2], [3], calculateMagnitudes [Finite 4] (Finite (-2.5)) (Finite 8))
  /\ run [5] [6] [7] [Finite 4]
    = Some ([5], [6], [7], calculateMagnitudes [Finite 4] (Finite (-2.5)) (Finite 8))
  /\ run [1] [2] [3] [Finite 9]
    = Some ([1], [2], [3], calculateMagnitudes [Finite 9] (Finite (-2.5)) (Finite 8)).
Proof.
  intros date2JD cy p run.
  split; [reflexivity|]. split; [reflexivity|].
  exact (proj2 (proj2
    (C10_photometry_astrometry_independent date2JD cy [1] [5] [2] [3] [6] [7]
       [Finite 4] [Finite 9] 45 15 0 1280 720 10 20 30 40 (Finite (-2.5)) (Finite 8)
       p p 100 [1] [2] [3] _ [5] [6] [7] _ eq_refl eq_refl))).
Defined.

(** ** The rotation queries return *)

(** [XY2altAz] is the pointwise map of the two loop bodies. *)
Lemma XY2altAz_map (X_data Y_data : list R)
    (lat lon RA_d dec_d Ho X_res Y_res pos_angle_ref F_scale : R)
    (x_poly_fwd y_poly_fwd : Poly12) :
  length X_data = length Y_data ->
  XY2altAz X_data Y_data lat lon RA_d dec_d Ho X_res Y_res pos_angle_ref F_scale
    x_poly_fwd y_poly_fwd
  = Some (zip_with (fun x y =>
            (altAzPoint lat lon RA_d dec_d Ho pos_angle_ref
               (correctPoint x_poly_fwd y_poly_fwd X_res Y_res F_scale x y).1
               (correctPoint x_poly_fwd y_poly_fwd X_res Y_res F_scale x y).2).1)
            X_data Y_data,
          zip_with (fun x y =>
            (altAzPoint lat lon RA_d dec_d Ho pos_angle_ref
               (correctPoint x_poly_fwd y_poly_fwd X_res Y_res F_scale x y).1
               (correctPoint x_poly_fwd y_poly_fwd X_res Y_res F_scale x y).2).2)
            X_data Y_data).
Proof.
  intros Hlen. unfold XY2altAz.
  rewrite (applyFieldCorrection_map _ _ _ _ _ _ _ Hlen). cbn [mbind option_bind].
  rewrite vstackT_zip by (rewrite !length_zip_with; lia). cbn [mbind option_bind].
  unfold zeros_like.
  set (rows := zip _ _).
  assert (Hrows : length rows = length (zip_with
            (fun x y => (correctPoint x_poly_fwd y_poly_fwd X_res Y_res F_scale x y).1)
            X_data Y_data)).
  { unfold rows. rewrite !length_zip_with. lia. }
  rewrite <- Hrows, loop2_zeros. cbn [out_fst out_snd].
  unfold rows. clear rows Hrows.
  f_equal. f_equal.
  - revert Y_data Hlen. induction X_data as [|x X' IH]; intros [|y Y'] Hlen;
      simpl in *; try reflexivity. f_equal. apply IH. lia.
  - revert Y_data Hlen. induction X_data as [|x X' IH]; intros [|y Y'] Hlen;
      simpl in *; try reflexivity. f_equal. apply IH. lia.
Qed.

Lemma wrap180_atan2 (y x : R) :
  wrap180 (degrees (atan2 y x)) = degrees (atan2 y x)
  /\ -180 < degrees (atan2 y x) <= 180.
Proof.
  pose proof (degrees_bound (atan2 y x) (- PI) PI (atan2_bound y x)) as Hb.
  rewrite degrees_opp, degrees_PI in Hb.
  split; [|exact Hb]. unfold wrap180.
  destruct (Rlt_dec 180 (degrees (atan2 y x))); [lra|reflexivity].
Qed.

(** [rotationWrtHorizon] returns for every platepar, with a value in
    (-180, 180]. *)
Lemma rotationWrtHorizon_total (platepar : Platepar) :
  exists rot, rotationWrtHorizon platepar = Some rot /\ -180 < rot <= 180.
Proof.
  unfold rotationWrtHorizon. cbv zeta.
  rewrite XY2altAz_map by reflexivity.
  cbn [mbind option_bind zip_with].
  cbn [lookup list_lookup].
  cbn [mbind option_bind].
  match goal with |- context [wrap180 (degrees (atan2 ?y ?x))] =>
    destruct (wrap180_atan2 y x) as [-> Hb];
    exists (degrees (atan2 y x)); split; [reflexivity|exact Hb]
  end.
Qed.

(** ** C3: the residual of the position-angle solvers *)


Section Residual.

Variable rotation : Platepar -> option R.

Lemma _rotAngleResidual_run (platepar : ref) (s : Store) (o : Platepar)
    (p rot_angle rot : R) :
  s !! platepar = Some o ->
  rotation (set_pos_angle_ref o p) = Some rot ->
  _rotAngleResidual rotation platepar p rot_angle s
  = Some (180 - Rabs (Rabs (rot_angle - pymod rot 360) - 180),
          <[platepar := set_pos_angle_ref o p]> s).
Proof.
  intros Hs Hrot.
  unfold _rotAngleResidual, py_bind, py_set_pos_angle_ref, py_deref, py_lift, py_ret.
  rewrite Hs. cbv beta iota. rewrite lookup_insert_eq. cbv beta iota.
  rewrite Hrot. reflexivity.
Qed.



End Residual.

(** ** C4: the solvers leave the caller's platepar alone *)

Section Frame.

Variable minimize : R -> Minimizer.
Variable rotation : Platepar -> option R.

(** Every evaluation of the residual rewrites the object behind the
    captured reference and nothing else. *)
Lemma _rotAngleResidual_store (copy : ref) (p rot_angle v : R) (s s' : Store) :
  _rotAngleResidual rotation copy p rot_angle s = Some (v, s') ->
  exists o, s !! copy = Some o /\ s' = <[copy := set_pos_angle_ref o p]> s.
Proof.
  unfold _rotAngleResidual, py_bind, py_set_pos_angle_ref, py_deref, py_lift, py_ret.
  destruct (s !! copy) as [o|] eqn:Hs; [|discriminate].
  cbv beta iota. rewrite lookup_insert_eq. cbv beta iota.
  destruct (rotation (set_pos_angle_ref o p)) as [rot|]; [|discriminate].
  intros H. inversion H; subst. eauto.
Qed.

Lemma runMinimizer_store (copy : ref) (rot_angle : R) (m : Minimizer) :
  forall (s s' : Store) (o : Platepar) (x : R),
    s !! copy = Some o ->
    runMinimizer m (fun p => _rotAngleResidual rotation copy p rot_angle) s
      = Some (x, s') ->
    exists o', s' = <[copy := o']> s.
Proof.
  induction m as [x0|p k IH]; intros s s' o x Hs Hrun; simpl in Hrun.
  - unfold py_ret in Hrun. inversion Hrun; subst.
    exists o. symmetry. now apply insert_id.
  - unfold py_bind in Hrun.
    destruct (_rotAngleResidual rotation copy p rot_angle s) as [[v s1]|] eqn:Hres;
      [|discriminate].
    apply _rotAngleResidual_store in Hres as (o1 & Ho1 & ->).
    apply (IH v _ _ (set_pos_angle_ref o1 p)) in Hrun as [o' ->];
      [|apply lookup_insert_eq].
    exists o'. apply insert_insert_eq.
Qed.

Lemma runMinimizer_total (copy : ref) (rot_angle : R) (m : Minimizer) :
  (forall o, is_Some (rotation o)) ->
  forall (s : Store) (o : Platepar),
    s !! copy = Some o ->
    is_Some (runMinimizer m (fun p => _rotAngleResidual rotation copy p rot_angle) s).
Proof.
  intros Htot. induction m as [x0|p k IH]; intros s o Hs; simpl.
  - eexists. reflexivity.
  - unfold py_bind.
    destruct (Htot (set_pos_angle_ref o p)) as [rot Hrot].
    rewrite (_rotAngleResidual_run rotation copy s o p rot_angle rot Hs Hrot).
    apply (IH _ _ (set_pos_angle_ref o p)). apply lookup_insert_eq.
Qed.

(** A solver run that returns has only added one object, the copy, to the
    store. *)
Lemma rotationToPosAngle_frame (platepar : ref) (rot_angle x : R) (s s' : Store) :
  rotationToPosAngle minimize rotation platepar rot_angle s = Some (x, s') ->
  exists copy, s' = <[fresh (dom s) := copy]> s.
Proof.
  unfold rotationToPosAngle, py_bind at 1, deepcopy.
  destruct (s !! platepar) as [o|] eqn:Hs; [|discriminate].
  set (copy := fresh (dom s)).
  unfold py_bind at 1, py_deref. rewrite lookup_insert_eq.
  unfold py_bind at 1.
  destruct (runMinimizer _ _ _) as [[x0 s1]|] eqn:Hrun; [|discriminate].
  unfold py_ret. intros H. inversion H; subst.
  apply (runMinimizer_store copy _ _ _ _ o) in Hrun as [o' ->];
    [|apply lookup_insert_eq].
  exists o'. apply insert_insert_eq.
Qed.

Lemma rotationToPosAngle_total (platepar : ref) (rot_angle : R) (s : Store)
    (o : Platepar) :
  (forall o, is_Some (rotation o)) ->
  s !! platepar = Some o ->
  is_Some (rotationToPosAngle minimize rotation platepar rot_angle s).
Proof.
  intros Htot Hs.
  unfold rotationToPosAngle, py_bind at 1, deepcopy. rewrite Hs.
  unfold py_bind at 1, py_deref. rewrite lookup_insert_eq.
  unfold py_bind at 1.
  destruct (runMinimizer_total (fresh (dom s)) (pymod rot_angle 360)
              (minimize (pos_angle_ref o)) Htot (<[fresh (dom s) := o]> s) o
              (lookup_insert_eq _ _ _)) as [[x0 s1] ->].
  eexists. reflexivity.
Qed.

Lemma fresh_insert_lookup (s : Store) (copy : Platepar) (r : ref) (o : Platepar) :
  s !! r = Some o -> <[fresh (dom s) := copy]> s !! r = Some o.
Proof.
  intros Hr. rewrite lookup_insert_ne; [exact Hr|].
  intros <-. pose proof (is_fresh (dom s)) as Hf.
  apply Hf. apply elem_of_dom. eauto.
Qed.

End Frame.



(** C4.  Let [platepar] refer to an object [o] of the store.  The horizon
    solver returns, for any minimizer, and in the store it leaves every object
    that existed before the call is unchanged, the caller's platepar with all
    its fields ([pos_angle_ref] among them) in particular: the one difference
    is the object added by [copy.deepcopy], the only one the search writes to.
    The same holds for the standard-frame solver whenever it returns. *)
Theorem C4_solver_preserves_platepar (minimize : R -> Minimizer) (platepar : ref)
    (rot_angle : R) (s : Store) (o : Platepar) :
  s !! platepar = Some o ->
  (exists x s',
     rotationWrtHorizonToPosAngle minimize platepar rot_angle s = Some (x, s')
     /\ s' !! platepar = Some o
     /\ (forall r o', s !! r = Some o' -> s' !! r = Some o')
     /\ exists copy, s' = <[fresh (dom s) := copy]> s)
  /\ (forall (TimeData : Type) (date2JD : TimeData -> R) (jd2Date : R -> TimeData)
        cyXYToRADec x s',
       rotationWrtStandardToPosAngle date2JD jd2Date cyXYToRADec minimize
         platepar rot_angle s = Some (x, s') ->
       s' !! platepar = Some o
       /\ (forall r o', s !! r = Some o' -> s' !! r = Some o')
       /\ exists copy, s' = <[fresh (dom s) := copy]> s).
Proof.
  intros Hs. split.
  - destruct (rotationToPosAngle_total minimize rotationWrtHorizon platepar
                rot_angle s o) as [[x s'] Hrun]; [|exact Hs|].
    { intros o0. destruct (rotationWrtHorizon_total o0) as (rot & -> & _). eauto. }
    exists x, s'. split; [exact Hrun|].
    destruct (rotationToPosAngle_frame _ _ _ _ _ _ _ Hrun) as [copy ->].
    split; [now apply fresh_insert_lookup|].
    split; [intros r o'; apply fresh_insert_lookup|eauto].
  - intros TimeData date2JD jd2Date cyXYToRADec x s' Hrun.
    destruct (rotationToPosAngle_frame _ _ _ _ _ _ _ Hrun) as [copy ->].
    split; [now apply fresh_insert_lookup|].
    split; [intros r o'; apply fresh_insert_lookup|eauto].
Qed.

Lemma C4_solver_preserves_platepar_witness :
  ({[0%nat := platepar_sample]} : Store) !! 0%nat = Some platepar_sample
  /\ exists x s',
       rotationWrtHorizonToPosAngle minimize_sample 0%nat 90
         {[0%nat := platepar_sample]} = Some (x, s')
       /\ s' !! 0%nat = Some platepar_sample.
Proof.
  split; [apply lookup_singleton_eq|].
  destruct (C4_solver_preserves_platepar minimize_sample 0%nat 90
              {[0%nat := platepar_sample]} platepar_sample
              (lookup_singleton_eq _ _)) as [(x & s' & Hrun & Hkeep & _) _].
  exists x, s'. split; assumption.
Defined.

(** ** C5: the rotation queries and a full turn of the position angle *)


Lemma foldl_store2_ext (f g : R -> R -> R * R) (rows : list (R * R)) :
  (forall a b, f a b = g a b) ->
  forall st, foldl (store2 f) st rows = foldl (store2 g) st rows.
Proof.
  intros Hfg. induction rows as [|row rows IH]; intros st; simpl; [reflexivity|].
  unfold store2 at 2 4. rewrite Hfg. apply IH.
Qed.


Section LoopOfAltAz2RADec.

Context {TimeData : Type}.
Variable date2JD : TimeData -> R -> R.
Variable datetime2JD : TimeData -> R -> R.
Variables lat lon UT_corr : R.
Variable dt_time : bool.

Lemma altAz2RADec_loop_app (rows : list (R * R)) :
  forall (tdone trest : list TimeData) (d1 d2 d3 p1 p2 p3 : list R),
    length d1 = length tdone -> length d2 = length tdone -> length d3 = length tdone ->
    (length rows <= length trest)%nat ->
    (length rows <= length p1)%nat -> (length rows <= length p2)%nat ->
    (length rows <= length p3)%nat ->
    altAz2RADec_loop date2JD datetime2JD lat lon UT_corr (tdone ++ trest) dt_time rows
      (mkLoop3 (length tdone) (d1 ++ p1) (d2 ++ p2) (d3 ++ p3))
    = Some (mkLoop3 (length tdone + length rows)
        (d1 ++ zip_with (fun e _ => (if dt_time then datetime2JD e (- UT_corr) else date2JD e (- UT_corr))) trest rows ++ drop (length rows) p1)
        (d2 ++ zip_with (fun e row => (raDecPoint lat lon ((if dt_time then datetime2JD e (- UT_corr) else date2JD e (- UT_corr))) row.1 row.2).1)
                 trest rows ++ drop (length rows) p2)
        (d3 ++ zip_with (fun e row => (raDecPoint lat lon ((if dt_time then datetime2JD e (- UT_corr) else date2JD e (- UT_corr))) row.1 row.2).2)
                 trest rows ++ drop (length rows) p3)).
Proof.
  induction rows as [|[azimuth altitude] rows IH];
    intros tdone trest d1 d2 d3 p1 p2 p3 H1 H2 H3 Ht Hp1 Hp2 Hp3.
  - destruct trest; simpl; rewrite Nat.add_0_r; reflexivity.
  - destruct trest as [|e trest]; [simpl in Ht; lia|].
    destruct p1 as [|a1 p1]; [simpl in Hp1; lia|].
    destruct p2 as [|a2 p2]; [simpl in Hp2; lia|].
    destruct p3 as [|a3 p3]; [simpl in Hp3; lia|].
    simpl in Ht, Hp1, Hp2, Hp3.
    cbn [altAz2RADec_loop loop3_i JD_data RA_data dec_data].
    rewrite list_lookup_middle by reflexivity. cbn [mbind option_bind].
    set (jd := if dt_time then datetime2JD e (- UT_corr) else date2JD e (- UT_corr)).
    destruct (raDecPoint lat lon jd azimuth altitude) as [RA dec] eqn:Ept.
    assert (E1 : <[length tdone := jd]> (d1 ++ a1 :: p1) = (d1 ++ [jd]) ++ p1).
    { rewrite insert_app_r_alt by lia. rewrite H1, Nat.sub_diag, <- app_assoc. reflexivity. }
    assert (E2 : <[length tdone := RA]> (d2 ++ a2 :: p2) = (d2 ++ [RA]) ++ p2).
    { rewrite insert_app_r_alt by lia. rewrite H2, Nat.sub_diag, <- app_assoc. reflexivity. }
    assert (E3 : <[length tdone := dec]> (d3 ++ a3 :: p3) = (d3 ++ [dec]) ++ p3).
    { rewrite insert_app_r_alt by lia. rewrite H3, Nat.sub_diag, <- app_assoc. reflexivity. }
    rewrite E1, E2, E3.
    replace (tdone ++ e :: trest) with ((tdone ++ [e]) ++ trest)
      by (rewrite <- app_assoc; reflexivity).
    replace (S (length tdone)) with (length (tdone ++ [e]))
      by (rewrite length_app; simpl; lia).
    rewrite IH by (rewrite ?length_app; simpl; lia).
    rewrite length_app. cbn [length zip_with drop fst snd]. fold jd. rewrite Ept.
    cbn [fst snd]. rewrite <- !app_assoc. cbn [app].
    do 2 f_equal. lia.
Qed.

(** [altAz2RADec] returns when every data point has its time entry, and is
    then the pointwise map of its loop body. *)
Lemma altAz2RADec_map (time_data : list TimeData) (azimuth_data altitude_data : list R) :
  length azimuth_data = length altitude_data ->
  (length azimuth_data <= length time_data)%nat ->
  altAz2RADec date2JD datetime2JD lat lon UT_corr time_data azimuth_data
    altitude_data dt_time
  = Some (zip_with (fun e _ => (if dt_time then datetime2JD e (- UT_corr) else date2JD e (- UT_corr))) time_data (zip azimuth_data altitude_data),
          zip_with (fun e row => (raDecPoint lat lon ((if dt_time then datetime2JD e (- UT_corr) else date2JD e (- UT_corr))) row.1 row.2).1)
            time_data (zip azimuth_data altitude_data),
          zip_with (fun e row => (raDecPoint lat lon ((if dt_time then datetime2JD e (- UT_corr) else date2JD e (- UT_corr))) row.1 row.2).2)
            time_data (zip azimuth_data altitude_data)).
Proof.
  intros Hlen Htime. unfold altAz2RADec, zeros_like.
  rewrite vstackT_zip by exact Hlen. cbn [mbind option_bind].
  assert (Hz : length (zip azimuth_data altitude_data) = length azimuth_data)
    by (rewrite length_zip_with; lia).
  pose proof (altAz2RADec_loop_app (zip azimuth_data altitude_data) [] time_data
                [] [] [] (replicate (length azimuth_data) 0)
                (replicate (length azimuth_data) 0)
                (replicate (length azimuth_data) 0)) as H.
  cbn [app length] in H. rewrite H by (rewrite ?length_replicate; lia).
  cbn [mbind option_bind JD_data RA_data dec_data].
  rewrite !drop_ge by (rewrite length_replicate; lia).
  rewrite !app_nil_r. reflexivity.
Qed.

End LoopOfAltAz2RADec.


Section StandardRotation.

Context {TimeData : Type}.
Variable date2JD : TimeData -> R.
Variable jd2Date : R -> TimeData.


End StandardRotation.




(** ** C8: the field of view and the image scale *)

Section FieldOfView.

Context {TimeData : Type}.
Variable date2JD : TimeData -> R.
Variable jd2Date : R -> TimeData.


End FieldOfView.

(** *** Angles up to a full turn *)

Lemma radians_degrees (r : R) : radians (degrees r) = r.
Proof. unfold degrees, radians. field. apply PI_neq0. Qed.

Lemma radians_minus (a b : R) : radians (a - b) = radians a - radians b.
Proof. unfold radians. lra. Qed.


Lemma cos_turns (x : R) (k : Z) : cos (x + 2 * IZR k * PI) = cos x.
Proof.
  destruct k as [|p|p].
  - f_equal. lra.
  - rewrite <- (cos_period x (Pos.to_nat p)). f_equal.
    rewrite INR_IZR_INZ, positive_nat_Z. reflexivity.
  - rewrite <- (cos_period (x + 2 * IZR (Z.neg p) * PI) (Pos.to_nat p)). f_equal.
    rewrite INR_IZR_INZ, positive_nat_Z.
    change (Z.neg p) with (- Z.pos p)%Z. rewrite opp_IZR. lra.
Qed.

Lemma sin_turns (x : R) (k : Z) : sin (x + 2 * IZR k * PI) = sin x.
Proof.
  destruct k as [|p|p].
  - f_equal. lra.
  - rewrite <- (sin_period x (Pos.to_nat p)). f_equal.
    rewrite INR_IZR_INZ, positive_nat_Z. reflexivity.
  - rewrite <- (sin_period (x + 2 * IZR (Z.neg p) * PI) (Pos.to_nat p)). f_equal.
    rewrite INR_IZR_INZ, positive_nat_Z.
    change (Z.neg p) with (- Z.pos p)%Z. rewrite opp_IZR. lra.
Qed.

Lemma same_dir_refl (a : R) : same_dir a a.
Proof. split; reflexivity. Qed.

Lemma same_dir_trans (a b c : R) : same_dir a b -> same_dir b c -> same_dir a c.
Proof. intros [H1 H2] [H3 H4]. split; congruence. Qed.

Lemma same_dir_minus (a a' b b' : R) :
  same_dir a a' -> same_dir b b' -> same_dir (a - b) (a' - b').
Proof.
  intros [H1 H2] [H3 H4]. split.
  - rewrite !cos_minus. congruence.
  - rewrite !sin_minus. congruence.
Qed.

(** Reducing an angle in degrees mod 360 keeps its direction. *)
Lemma same_dir_pymod (d : R) : same_dir (radians (pymod d 360)) (radians d).
Proof.
  assert (E : radians (pymod d 360)
              = radians d + 2 * IZR (- Zfloor (d / 360)) * PI).
  { unfold pymod, radians. rewrite opp_IZR.
    generalize (IZR (Zfloor (d / 360))). intros k. lra. }
  rewrite E. split; [apply cos_turns|apply sin_turns].
Qed.

(** *** The two-argument arctangent points along its arguments *)

Lemma sqrt_sum_squares_scale (x t : R) :
  sqrt (x ^ 2 + (x * t) ^ 2) = Rabs x * sqrt (1 + t²).
Proof.
  replace (x ^ 2 + (x * t) ^ 2) with (x² * (1 + t²)) by (unfold Rsqr; ring).
  rewrite sqrt_mult_alt by apply Rle_0_sqr.
  rewrite sqrt_Rsqr_abs. reflexivity.
Qed.

Lemma atan2_dir (y x : R) :
  x <> 0 \/ y <> 0 ->
  cos (atan2 y x) = x / sqrt (x ^ 2 + y ^ 2)
  /\ sin (atan2 y x) = y / sqrt (x ^ 2 + y ^ 2).
Proof.
  intros Hnz. unfold atan2.
  assert (Hm : 0 < sqrt (1 + (y / x)²)).
  { apply sqrt_lt_R0. pose proof (Rle_0_sqr (y / x)). lra. }
  assert (Hn : x <> 0 -> sqrt (x ^ 2 + y ^ 2) = Rabs x * sqrt (1 + (y / x)²)).
  { intros Hx0. rewrite <- sqrt_sum_squares_scale. f_equal. field. exact Hx0. }
  destruct (Rlt_dec 0 x) as [Hx|Hx].
  - rewrite Hn, Rabs_pos_eq by lra.
    rewrite cos_atan, sin_atan. split; field; lra.
  - destruct (Rlt_dec x 0) as [Hx'|Hx'].
    + rewrite Hn, Rabs_left by lra.
      destruct (Rle_dec 0 y).
      * rewrite neg_cos, neg_sin, cos_atan, sin_atan. split; field; lra.
      * unfold Rminus. rewrite cos_plus, sin_plus, cos_neg, sin_neg, cos_PI, sin_PI.
        rewrite cos_atan, sin_atan. split; field; lra.
    + assert (x = 0) by lra. subst x.
      destruct Hnz as [Hnz|Hnz]; [lra|].
      replace (0 ^ 2 + y ^ 2) with (y²) by (unfold Rsqr; ring).
      rewrite sqrt_Rsqr_abs.
      destruct (Rlt_dec 0 y).
      * rewrite cos_PI2, sin_PI2, Rabs_pos_eq by lra. split; field; lra.
      * destruct (Rlt_dec y 0); [|lra].
        rewrite cos_neg, sin_neg, cos_PI2, sin_PI2, Rabs_left by lra.
        split; field; lra.
Qed.

(** The arctangent of a positive multiple of a unit vector. *)
Lemma atan2_unit (c s k : R) :
  0 < k -> c ^ 2 + s ^ 2 = 1 ->
  cos (atan2 (k * s) (k * c)) = c /\ sin (atan2 (k * s) (k * c)) = s.
Proof.
  intros Hk Hcs.
  assert (Hn : sqrt ((k * c) ^ 2 + (k * s) ^ 2) = k).
  { replace ((k * c) ^ 2 + (k * s) ^ 2) with (k² * (c ^ 2 + s ^ 2)) by (unfold Rsqr; ring).
    rewrite Hcs, Rmult_1_r. apply sqrt_Rsqr. lra. }
  destruct (atan2_dir (k * s) (k * c)) as [Hc Hs].
  - destruct (Req_dec c 0) as [->|Hc0].
    + right. assert (s <> 0) by nra. nra.
    + left. nra.
  - rewrite Hc, Hs, Hn. split; field; lra.
Qed.

(** With a positive second argument the arctangent stays within a right
    angle. *)
Lemma atan2_pos_bound (y x : R) : 0 < x -> - (PI / 2) < atan2 y x < PI / 2.
Proof.
  intros Hx. unfold atan2. destruct (Rlt_dec 0 x); [|contradiction].
  pose proof (atan_bound (y / x)). lra.
Qed.

(** *** From the image plane to the equatorial frame *)

Lemma cos_pow2 (a : R) : cos a ^ 2 = 1 - sin a ^ 2.
Proof. pose proof (sin2_cos2 a) as H. unfold Rsqr in H. lra. Qed.

Lemma sqrt_one_minus_sq (s : R) :
  -1 < s < 1 -> 0 < sqrt (1 - s ^ 2) /\ sqrt (1 - s ^ 2) ^ 2 = 1 - s ^ 2.
Proof.
  intros Hs. assert (H : 0 < 1 - s ^ 2) by nra.
  split; [now apply sqrt_lt_R0|].
  pose proof (sqrt_sqrt (1 - s ^ 2) ltac:(lra)) as Hq.
  rewrite <- Hq at 2. ring.
Qed.

(** The declination [D] and the hour-angle offset [Delta] computed by
    [XY2altAz] for a point at angular distance [rho] and polar angle [theta]
    from a centre of declination [delta]: [D] is an arcsine, and
    (cos D cos Delta, cos D sin Delta, sin D) is the unit vector of the
    point. *)
Lemma image_to_equatorial (delta rho theta : R) :
  0 < cos delta ->
  -1 < sin delta * cos rho + cos delta * sin rho * cos theta < 1 ->
  let s := sin delta * cos rho + cos delta * sin rho * cos theta in
  let D := atan2 s (sqrt (1 - s ^ 2)) in
  let st := sin theta * sin rho / cos D in
  let ct := (cos rho - sin D * sin delta) / (cos D * cos delta) in
  let Delta := atan2 st ct in
  - (PI / 2) < D < PI / 2
  /\ sin D = s
  /\ cos D = sqrt (1 - s ^ 2)
  /\ cos D * cos Delta = cos rho * cos delta - sin delta * sin rho * cos theta
  /\ cos D * sin Delta = sin theta * sin rho.
Proof.
  intros Hcd Hs s D st ct Delta.
  destruct (sqrt_one_minus_sq s Hs) as [Hpos Hsq].
  set (cd := sqrt (1 - s ^ 2)) in *.
  assert (Hn : sqrt (cd ^ 2 + s ^ 2) = 1).
  { rewrite Hsq. replace (1 - s ^ 2 + s ^ 2) with 1 by ring. apply sqrt_1. }
  destruct (atan2_dir s cd) as [HcD HsD]; [left; lra|].
  rewrite Hn in HcD, HsD. fold D in HcD, HsD.
  assert (HcD' : cos D = cd) by (rewrite HcD; field).
  assert (HsD' : sin D = s) by (rewrite HsD; field).
  pose proof (cos_pow2 delta) as Pd. pose proof (cos_pow2 rho) as Pr.
  pose proof (cos_pow2 theta) as Pt.
  set (A := cos rho * cos delta - sin delta * sin rho * cos theta).
  set (B := sin theta * sin rho).
  assert (Hct : ct = A / cd).
  { unfold ct. rewrite HcD', HsD'. unfold A, s. field_simplify_eq; [|lra].
    ring [Pd]. }
  assert (Hst : st = B / cd) by (unfold st; rewrite HcD'; reflexivity).
  assert (HAB : A ^ 2 + B ^ 2 = cd ^ 2).
  { rewrite Hsq. unfold A, B, s. ring [Pd Pr Pt]. }
  assert (Hn2 : sqrt (ct ^ 2 + st ^ 2) = 1).
  { rewrite Hct, Hst.
    replace ((A / cd) ^ 2 + (B / cd) ^ 2) with ((A ^ 2 + B ^ 2) / cd ^ 2) by (field; lra).
    rewrite HAB. replace (cd ^ 2 / cd ^ 2) with 1 by (field; lra). apply sqrt_1. }
  destruct (atan2_dir st ct) as [HcE HsE].
  { destruct (Req_dec ct 0) as [Hz|Hz]; [right|left; exact Hz].
    intros Hz'. rewrite Hz, Hz' in Hn2.
    replace (0 ^ 2 + 0 ^ 2) with 0 in Hn2 by ring. rewrite sqrt_0 in Hn2. lra. }
  rewrite Hn2 in HcE, HsE. fold Delta in HcE, HsE.
  split; [apply atan2_pos_bound; exact Hpos|].
  split; [exact HsD'|]. split; [exact HcD'|].
  rewrite HcD', HcE, HsE, Hct, Hst. split; field; lra.
Qed.

(** *** To the horizon and back *)

(** Turning a direction of hour angle [h] and declination [D] into azimuth
    and altitude at latitude [lambda], as [XY2altAz] does, and back, as
    [altAz2RADec] does, recovers the direction, provided it is neither at a
    celestial pole nor at the zenith or the nadir. *)
Lemma horizontal_round_trip (lambda h D az_rad alt_rad : R) :
  0 < cos D ->
  -1 < cos h * cos D * cos lambda + sin D * sin lambda < 1 ->
  let x := - cos h * cos D * sin lambda + sin D * cos lambda in
  let y := - sin h * cos D in
  let z := cos h * cos D * cos lambda + sin D * sin lambda in
  same_dir az_rad (atan2 y x) ->
  alt_rad = atan2 z (sqrt (x ^ 2 + y ^ 2)) ->
  - (PI / 2) < alt_rad < PI / 2
  /\ - sin az_rad * cos alt_rad = cos D * sin h
  /\ - cos az_rad * sin lambda * cos alt_rad + sin alt_rad * cos lambda = cos D * cos h
  /\ sin lambda * sin alt_rad + cos lambda * cos alt_rad * cos az_rad = sin D.
Proof.
  intros HcD Hz x y z [Hcaz Hsaz] Halt.
  pose proof (cos_pow2 h) as Ph. pose proof (cos_pow2 D) as PD.
  pose proof (cos_pow2 lambda) as Pl.
  assert (Hxy : x ^ 2 + y ^ 2 = 1 - z ^ 2) by (unfold x, y, z; ring [Ph PD Pl]).
  destruct (sqrt_one_minus_sq z Hz) as [Hr Hr2].
  rewrite <- Hxy in Hr, Hr2.
  set (r := sqrt (x ^ 2 + y ^ 2)) in *.
  destruct (atan2_dir y x) as [Hca Hsa].
  { destruct (Req_dec x 0) as [Hx0|Hx0]; [right|left; exact Hx0].
    intros Hy0. rewrite Hx0, Hy0 in Hxy. nra. }
  fold r in Hca, Hsa.
  assert (Hn : sqrt (r ^ 2 + z ^ 2) = 1).
  { rewrite Hr2, Hxy. replace (1 - z ^ 2 + z ^ 2) with 1 by ring. apply sqrt_1. }
  destruct (atan2_dir z r) as [Hce Hse]; [left; lra|].
  rewrite Hn in Hce, Hse. rewrite <- Halt in Hce, Hse.
  rewrite Hcaz, Hsaz, Hca, Hsa, Hce, Hse.
  split; [rewrite Halt; apply atan2_pos_bound; exact Hr|].
  split; [unfold y; field; lra|].
  split.
  - unfold x, z. field_simplify_eq; [|lra]. ring [Pl].
  - unfold x, z. field_simplify_eq; [|lra]. ring [Pl].
Qed.

Lemma degrees_lt_90 (a : R) : a < PI / 2 -> degrees a < 90.
Proof.
  pose proof PI_RGT_0 as Hpi. intros H. unfold degrees.
  apply (Rmult_lt_reg_r PI); [lra|]. field_simplify; lra.
Qed.

(** [altAz2RADec] applied to the azimuth and altitude that [XY2altAz]
    computes for hour angle [h] and declination [D]: the declination comes
    back, and the right ascension is the sidereal time plus the longitude minus
    an angle with the direction of [h]. *)
Lemma raDecPoint_of_altAz (lat lon jd h D : R) :
  - (PI / 2) < D < PI / 2 ->
  -1 < cos h * cos D * cos (radians lat) + sin D * sin (radians lat) < 1 ->
  let sl := sin (radians lat) in
  let cl := cos (radians lat) in
  let x := - cos h * cos D * sl + sin D * cl in
  let y := - sin h * cos D in
  let z := cos h * cos D * cl + sin D * sl in
  let r := sqrt (x ^ 2 + y ^ 2) in
  let azimuth := pymod (degrees (atan2 y x)) 360 in
  let altitude := degrees (atan2 z r) in
  exists HA,
    same_dir HA h
    /\ raDecPoint lat lon jd azimuth altitude
       = (pymod (siderealTime jd + lon - degrees HA) 360, degrees D).
Proof.
  intros HD Hz sl cl x y z r azimuth altitude.
  assert (HcD : 0 < cos D) by (apply cos_gt_0; lra).
  assert (Haz : same_dir (radians azimuth) (atan2 y x)).
  { unfold azimuth. eapply same_dir_trans; [apply same_dir_pymod|].
    rewrite radians_degrees. apply same_dir_refl. }
  assert (Halt : radians altitude = atan2 z r) by (apply radians_degrees).
  destruct (horizontal_round_trip (radians lat) h D (radians azimuth)
              (radians altitude) HcD Hz Haz Halt) as (Hb & Hx' & Hy' & Hdec).
  assert (Hnudge : nudgeAltitude altitude = altitude).
  { unfold nudgeAltitude. destruct (Req_dec_T altitude 90) as [E|_]; [|reflexivity].
    exfalso. assert (Hlt : altitude < 90).
    { unfold altitude. apply degrees_lt_90. rewrite <- Halt. apply Hb. }
    lra. }
  unfold raDecPoint. rewrite Hnudge. unfold raDecTrig. cbv zeta.
  fold sl cl in Hx', Hy', Hdec |- *.
  rewrite Hx', Hy', Hdec.
  exists (atan2 (cos D * sin h) (cos D * cos h)). split.
  - apply atan2_unit; [exact HcD|]. pose proof (cos_pow2 h). lra.
  - unfold siderealTime. cbv zeta. rewrite asin_sin by lra. reflexivity.
Qed.

(** A direction whose declination is strictly between minus and plus the
    latitude is neither at the zenith nor at the nadir, whatever its hour
    angle. *)
Lemma zenith_avoided (ch cd sd sl cl : R) :
  -1 <= ch <= 1 -> 0 < cd -> cd ^ 2 = 1 - sd ^ 2 ->
  0 <= cl -> 0 < sl -> cl ^ 2 = 1 - sl ^ 2 ->
  - sl < sd < sl ->
  -1 < ch * cd * cl + sd * sl < 1.
Proof.
  intros Hch Hcd Pd Hcl Hsl Pl Hsd.
  assert (Hcd1 : cd <= 1) by nra.
  assert (Hcl1 : cl < 1) by nra.
  assert (Hsl1 : sl <= 1) by nra.
  assert (Hcdcl : cl < cd) by nra.
  assert (Hprod : 0 <= cd * cl) by nra.
  assert (Hup : ch * cd * cl <= cd * cl) by nra.
  assert (Hlo : - (cd * cl) <= ch * cd * cl) by nra.
  assert (Hgap1 : 0 < cd * sl - sd * cl) by nra.
  assert (Hgap2 : 0 < cd * sl + sd * cl) by nra.
  assert (Hid1 : (cd * cl + sd * sl) ^ 2 = 1 - (cd * sl - sd * cl) ^ 2) by ring [Pd Pl].
  assert (Hid2 : (cd * cl - sd * sl) ^ 2 = 1 - (cd * sl + sd * cl) ^ 2) by ring [Pd Pl].
  assert (H1 : cd * cl + sd * sl < 1) by nra.
  assert (H2 : cd * cl - sd * sl < 1) by nra.
  lra.
Qed.


(** *** Two opposite edge midpoints *)



(** *** The four edge midpoints of an undistorted image *)






Lemma sqrt_pow2_l (a : R) : 0 <= a -> sqrt (a ^ 2 + 0 ^ 2) = a.
Proof.
  intros Ha. replace (a ^ 2 + 0 ^ 2) with (a²) by (unfold Rsqr; ring).
  now apply sqrt_Rsqr.
Qed.





Lemma radians_lt (a b : R) : a < b -> radians a < radians b.
Proof. pose proof PI_RGT_0 as Hpi. intros H. unfold radians. nra. Qed.

Lemma radians_le (a b : R) : a <= b -> radians a <= radians b.
Proof. pose proof PI_RGT_0 as Hpi. intros H. unfold radians. nra. Qed.

Lemma radians_abs (d : R) : Rabs (radians d) = radians (Rabs d).
Proof.
  pose proof PI_RGT_0. unfold Rabs.
  destruct (Rcase_abs d) as [Hd|Hd]; destruct (Rcase_abs (radians d)) as [Hr|Hr];
    unfold radians in *; try lra; nra.
Qed.

Lemma radians_90 : radians 90 = PI / 2.
Proof. unfold radians. lra. Qed.

Lemma radians_0 : radians 0 = 0.
Proof. unfold radians. lra. Qed.


Section UndistortedField.

Context {TimeData : Type}.
Variable date2JD : TimeData -> R.
Variable jd2Date : R -> TimeData.


End UndistortedField.






(** * Further properties of the module *)

(** ** Shapes, errors and ranges of the array functions *)

Lemma degrees_half_PI : degrees (PI / 2) = 90.
Proof. replace (PI / 2) with (1 / 2 * PI) by lra. rewrite degrees_mult. lra. Qed.

(** With a second argument that is not negative the arctangent stays within
    a right angle on either side. *)
Lemma atan2_nonneg_bound (y x : R) : 0 <= x -> - (PI / 2) <= atan2 y x <= PI / 2.
Proof.
  intros Hx. pose proof PI_RGT_0 as Hpi. unfold atan2.
  destruct (Rlt_dec 0 x).
  - pose proof (atan_bound (y / x)). lra.
  - destruct (Rlt_dec x 0); [lra|].
    destruct (Rlt_dec 0 y); [lra|]. destruct (Rlt_dec y 0); lra.
Qed.

Lemma Forall_zip_with_all {A B C} (P : C -> Prop) (f : A -> B -> C)
    (l : list A) (k : list B) :
  (forall a b, P (f a b)) -> Forall P (zip_with f l k).
Proof.
  intros HP. revert k. induction l as [|a l IH]; intros [|b k]; simpl;
    constructor; auto.
Qed.

Lemma altAzPoint_range (lat lon RA_d dec_d Ho pos_angle_ref X_pix Y_pix : R) :
  0 <= (altAzPoint lat lon RA_d dec_d Ho pos_angle_ref X_pix Y_pix).1 < 360
  /\ -90 <= (altAzPoint lat lon RA_d dec_d Ho pos_angle_ref X_pix Y_pix).2 <= 90.
Proof.
  unfold altAzPoint. cbv zeta. cbn [fst snd]. split.
  - apply pymod_bound. lra.
  - match goal with |- _ <= degrees (atan2 ?z (sqrt ?r)) <= _ =>
      pose proof (atan2_nonneg_bound z (sqrt r) (sqrt_pos r)) as [Hlo Hhi];
      apply degrees_le in Hlo; apply degrees_le in Hhi
    end.
    rewrite degrees_opp, degrees_half_PI in Hlo. rewrite degrees_half_PI in Hhi.
    lra.
Qed.

Lemma altAzPoint_azimuth_closed (lat lon RA_d dec_d Ho pos_angle_ref X_pix Y_pix : R) :
  0 <= (altAzPoint lat lon RA_d dec_d Ho pos_angle_ref X_pix Y_pix).1 <= 360.
Proof.
  pose proof (altAzPoint_range lat lon RA_d dec_d Ho pos_angle_ref X_pix Y_pix)
    as [Ha _].
  lra.
Qed.

Lemma altAzPoint_altitude_closed (lat lon RA_d dec_d Ho pos_angle_ref X_pix Y_pix : R) :
  -90 <= (altAzPoint lat lon RA_d dec_d Ho pos_angle_ref X_pix Y_pix).2 <= 90.
Proof. apply altAzPoint_range. Qed.

(** X1.  [applyFieldCorrection] raises exactly when its two coordinate arrays
    differ in length; when it returns, both output arrays have the length of
    the input. *)
Theorem applyFieldCorrection_shape (x_poly_fwd y_poly_fwd : Poly12)
    (X_res Y_res F_scale : R) (X_data Y_data : list R) :
  match applyFieldCorrection x_poly_fwd y_poly_fwd X_res Y_res F_scale X_data Y_data with
  | Some (X_corrected, Y_corrected) =>
      length X_data = length Y_data
      /\ length X_corrected = length X_data /\ length Y_corrected = length X_data
  | None => length X_data <> length Y_data
  end.
Proof.
  destruct (decide (length X_data = length Y_data)) as [Hlen|Hne].
  - rewrite (applyFieldCorrection_map _ _ _ _ _ _ _ Hlen).
    rewrite !length_zip_with. split; [exact Hlen|]. split; lia.
  - rewrite (applyFieldCorrection_mismatch _ _ _ _ _ _ _ Hne). exact Hne.
Qed.

(** X2.  The centre of the image is rectified to the constant terms of the
    two polynomials divided by the scale: every other term of the distortion
    vanishes there, whatever the coefficients. *)
Theorem applyFieldCorrection_image_centre (x_poly_fwd y_poly_fwd : Poly12)
    (X_res Y_res F_scale : R) :
  applyFieldCorrection x_poly_fwd y_poly_fwd X_res Y_res F_scale
    [X_res / 2] [Y_res / 2]
  = Some ([x_poly_fwd.[0] / F_scale], [y_poly_fwd.[0] / F_scale]).
Proof.
  rewrite applyFieldCorrection_map by reflexivity.
  cbn [zip_with]. unfold correctPoint. cbv zeta. cbn [fst snd].
  replace (X_res / 2 - X_res / 2) with 0 by lra.
  replace (Y_res / 2 - Y_res / 2) with 0 by lra.
  do 2 f_equal; f_equal; unfold Rdiv; ring.
Qed.

(** X3.  Whenever [XY2altAz] returns, its two coordinate arrays have the same
    length (on arrays of different lengths it raises), the two output arrays
    have that length, every azimuth lies in the closed interval [0, 360] and
    every altitude in [-90, 90]. *)
Theorem XY2altAz_ranges (X_data Y_data : list R)
    (lat lon RA_d dec_d Ho X_res Y_res pos_angle_ref F_scale : R)
    (x_poly_fwd y_poly_fwd : Poly12) (az_data alt_data : list R) :
  XY2altAz X_data Y_data lat lon RA_d dec_d Ho X_res Y_res pos_angle_ref
    F_scale x_poly_fwd y_poly_fwd = Some (az_data, alt_data) ->
  length X_data = length Y_data
  /\ length az_data = length X_data /\ length alt_data = length X_data
  /\ Forall (fun azimuth => 0 <= azimuth <= 360) az_data
  /\ Forall (fun altitude => -90 <= altitude <= 90) alt_data.
Proof.
  destruct (decide (length X_data = length Y_data)) as [Hlen|Hne].
  - rewrite (XY2altAz_map _ _ _ _ _ _ _ _ _ _ _ _ _ Hlen).
    intros H. injection H as <- <-.
    rewrite !length_zip_with. split; [exact Hlen|].
    split; [lia|]. split; [lia|]. split.
    + apply Forall_zip_with_all. intros a b. apply altAzPoint_azimuth_closed.
    + apply Forall_zip_with_all. intros a b. apply altAzPoint_altitude_closed.
  - unfold XY2altAz.
    rewrite (applyFieldCorrection_mismatch _ _ _ _ _ _ _ Hne). discriminate.
Qed.

Lemma XY2altAz_ranges_witness :
  exists az_data alt_data,
    XY2altAz [0; 640] [360; 360] 45 15 10 20 30 1280 720 0 40 poly_zero poly_zero
    = Some (az_data, alt_data)
    /\ length [0; 640] = length [360; 360]
    /\ length az_data = length [0; 640] /\ length alt_data = length [0; 640]
    /\ Forall (fun azimuth => 0 <= azimuth <= 360) az_data
    /\ Forall (fun altitude => -90 <= altitude <= 90) alt_data.
Proof.
  eexists _, _.
  assert (Hrun := XY2altAz_map [0; 640] [360; 360] 45 15 10 20 30 1280 720 0 40
                    poly_zero poly_zero eq_refl).
  split; [exact Hrun|].
  exact (XY2altAz_ranges _ _ _ _ _ _ _ _ _ _ _ _ _ _ _ Hrun).
Defined.

(** The horizontal coordinates of a rectified point depend on the reference
    right ascension and the reference hour angle through their difference
    only. *)
Lemma altAzPoint_reference_shift (lat lon RA_d dec_d Ho pos_angle_ref d X_pix Y_pix : R) :
  altAzPoint lat lon (RA_d + d) dec_d (Ho + d) pos_angle_ref X_pix Y_pix
  = altAzPoint lat lon RA_d dec_d Ho pos_angle_ref X_pix Y_pix.
Proof.
  unfold altAzPoint. cbv zeta.
  match goal with
  | |- context [pymod (RA_d + d - ?u) 360] =>
      generalize u; intros u0
  end.
  assert (Hdir : same_dir (radians (Ho + d + lon - pymod (RA_d + d - u0) 360))
                          (radians (Ho + lon - pymod (RA_d - u0) 360))).
  { rewrite !radians_minus.
    eapply same_dir_trans.
    - apply same_dir_minus; [apply same_dir_refl|apply same_dir_pymod].
    - apply same_dir_trans with (radians (Ho + lon) - radians (RA_d - u0)).
      + replace (radians (Ho + d + lon) - radians (RA_d + d - u0))
          with (radians (Ho + lon) - radians (RA_d - u0)) by (unfold radians; lra).
        apply same_dir_refl.
      + apply same_dir_minus; [apply same_dir_refl|].
        destruct (same_dir_pymod (RA_d - u0)) as [H1 H2]. split; symmetry; assumption. }
  destruct Hdir as [Hc Hs]. rewrite Hc, Hs. reflexivity.
Qed.

(** X4.  [XY2altAz] depends on the reference right ascension [RA_d] and the
    reference hour angle [Ho] through their difference only: adding the same
    angle to both changes nothing. *)
Theorem XY2altAz_reference_shift (X_data Y_data : list R)
    (lat lon RA_d dec_d Ho X_res Y_res pos_angle_ref F_scale d : R)
    (x_poly_fwd y_poly_fwd : Poly12) :
  XY2altAz X_data Y_data lat lon (RA_d + d) dec_d (Ho + d) X_res Y_res
    pos_angle_ref F_scale x_poly_fwd y_poly_fwd
  = XY2altAz X_data Y_data lat lon RA_d dec_d Ho X_res Y_res pos_angle_ref
      F_scale x_poly_fwd y_poly_fwd.
Proof.
  unfold XY2altAz.
  apply option_bind_ext; [|reflexivity]. intros [X_corrected Y_corrected].
  apply option_bind_ext; [|reflexivity]. intros rows.
  unfold loop2.
  rewrite (foldl_store2_ext (altAzPoint lat lon (RA_d + d) dec_d (Ho + d) pos_angle_ref)
             (altAzPoint lat lon RA_d dec_d Ho pos_angle_ref) rows
             (altAzPoint_reference_shift lat lon RA_d dec_d Ho pos_angle_ref d)).
  reflexivity.
Qed.

(** ** Horizontal to equatorial coordinates: ranges and errors *)

Lemma raDecPoint_range (lat lon JD azimuth altitude : R) :
  0 <= (raDecPoint lat lon JD azimuth altitude).1 < 360
  /\ -90 <= (raDecPoint lat lon JD azimuth altitude).2 <= 90.
Proof.
  unfold raDecPoint, raDecTrig. cbv zeta. cbn [fst snd]. split.
  - apply pymod_bound. lra.
  - match goal with |- _ <= degrees (asin ?u) <= _ =>
      pose proof (asin_bound u) as [Hlo Hhi];
      apply degrees_le in Hlo; apply degrees_le in Hhi
    end.
    rewrite degrees_opp, degrees_half_PI in Hlo. rewrite degrees_half_PI in Hhi.
    lra.
Qed.

Lemma raDecPoint_ra_closed (lat lon JD azimuth altitude : R) :
  0 <= (raDecPoint lat lon JD azimuth altitude).1 <= 360.
Proof.
  pose proof (raDecPoint_range lat lon JD azimuth altitude) as [Hr _]. lra.
Qed.

Lemma raDecPoint_dec_closed (lat lon JD azimuth altitude : R) :
  -90 <= (raDecPoint lat lon JD azimuth altitude).2 <= 90.
Proof. apply raDecPoint_range. Qed.

Section ShapeOfAltAz2RADec.

Context {TimeData : Type}.
Variable date2JD : TimeData -> R -> R.
Variable datetime2JD : TimeData -> R -> R.
Variables lat lon UT_corr : R.
Variable dt_time : bool.

(** The loop raises when it runs out of time entries. *)
Lemma altAz2RADec_loop_short (time_data : list TimeData) (rows : list (R * R)) :
  forall st : Loop3,
    (loop3_i st <= length time_data)%nat ->
    (length time_data < loop3_i st + length rows)%nat ->
    altAz2RADec_loop date2JD datetime2JD lat lon UT_corr time_data dt_time rows st
    = None.
Proof.
  induction rows as [|[azimuth altitude] rows IH]; intros st Hi Hlen.
  - simpl in Hlen. lia.
  - cbn [altAz2RADec_loop].
    destruct (time_data !! loop3_i st) as [entry|] eqn:Hentry; [|reflexivity].
    cbn [mbind option_bind].
    apply lookup_lt_Some in Hentry.
    destruct (raDecPoint _ _ _ _ _) as [RA dec].
    apply IH; cbn [loop3_i]; [lia|]. simpl in Hlen. lia.
Qed.

(** X5.  Whenever [altAz2RADec] returns, the azimuth and altitude arrays have
    the same length and [time_data] has an entry for every point (otherwise
    it raises), the three output arrays have the length of the input, every
    right ascension lies in the closed interval [0, 360] and every
    declination in [-90, 90]. *)
Theorem altAz2RADec_ranges (time_data : list TimeData)
    (azimuth_data altitude_data : list R) (JD_data RA_data dec_data : list R) :
  altAz2RADec date2JD datetime2JD lat lon UT_corr time_data azimuth_data
    altitude_data dt_time = Some (JD_data, RA_data, dec_data) ->
  length azimuth_data = length altitude_data
  /\ (length azimuth_data <= length time_data)%nat
  /\ length JD_data = length azimuth_data
  /\ length RA_data = length azimuth_data
  /\ length dec_data = length azimuth_data
  /\ Forall (fun ra => 0 <= ra <= 360) RA_data
  /\ Forall (fun dec => -90 <= dec <= 90) dec_data.
Proof.
  destruct (decide (length azimuth_data = length altitude_data)) as [Hlen|Hne].
  - destruct (decide (length azimuth_data <= length time_data)%nat) as [Ht|Ht].
    + rewrite (altAz2RADec_map _ _ _ _ _ _ _ _ _ Hlen Ht).
      intros H. injection H as <- <- <-.
      rewrite !length_zip_with.
      split; [exact Hlen|]. split; [exact Ht|].
      split; [lia|]. split; [lia|]. split; [lia|]. split.
      * apply Forall_zip_with_all. intros e row. apply raDecPoint_ra_closed.
      * apply Forall_zip_with_all. intros e row.
        exact (raDecPoint_dec_closed lat lon 0 row.1 row.2).
    + unfold altAz2RADec. rewrite vstackT_zip by exact Hlen.
      cbn [mbind option_bind].
      rewrite altAz2RADec_loop_short;
        [discriminate|cbn [loop3_i]; lia|cbn [loop3_i]; rewrite length_zip_with; lia].
  - unfold altAz2RADec. rewrite (vstackT_mismatch _ _ Hne). discriminate.
Qed.

End ShapeOfAltAz2RADec.

Lemma altAz2RADec_ranges_witness :
  exists JD_data RA_data dec_data,
    altAz2RADec (fun (jd : R) (_ : R) => jd) (fun (jd : R) (_ : R) => jd) 45 15 0
      [2451545%R; 2451546%R] [10; 200] [30; 60] false
    = Some (JD_data, RA_data, dec_data)
    /\ length [10; 200] = length [30; 60]
    /\ (length [10; 200] <= length [2451545%R; 2451546%R])%nat
    /\ length JD_data = length [10; 200]
    /\ length RA_data = length [10; 200]
    /\ length dec_data = length [10; 200]
    /\ Forall (fun ra => 0 <= ra <= 360) RA_data
    /\ Forall (fun dec => -90 <= dec <= 90) dec_data.
Proof.
  eexists _, _, _.
  assert (Hrun := altAz2RADec_map (fun (jd : R) (_ : R) => jd)
                    (fun (jd : R) (_ : R) => jd) 45 15 0 false
                    [2451545%R; 2451546%R] [10; 200] [30; 60] eq_refl
                    ltac:(cbn [length]; lia)).
  split; [exact Hrun|].
  exact (altAz2RADec_ranges _ _ _ _ _ _ _ _ _ _ _ _ Hrun).
Defined.

(** ** Equatorial to horizontal coordinates *)

(** The sidereal time that [raDec2AltAz] computes is the one of
    [altAz2RADec]. *)
Lemma raDec2AltAz_lst (JD : R) :
  pymod (280.46061837 + 360.98564736629 * (JD - 2451545.0)
         + 0.000387933 * ((JD - 2451545) / 36525.0) ^ 2
         - (((JD - 2451545) / 36525.0) ^ 3) / 38710000) 360
  = siderealTime JD.
Proof.
  unfold siderealTime. cbv zeta.
  replace (JD - 2451545) with (JD - 2451545.0) by lra.
  f_equal. unfold Rdiv. f_equal. f_equal. f_equal. lra.
Qed.

(** Whole turns added to the right ascension are absorbed by the wrap of the
    hour angle. *)
Lemma raDec2AltAz_ra_turns (JD lon lat ra dec : R) (k : Z) :
  raDec2AltAz JD lon lat (ra + 360 * IZR k) dec = raDec2AltAz JD lon lat ra dec.
Proof.
  unfold raDec2AltAz. cbv zeta.
  set (lst := radians (pymod _ 360 + lon)).
  replace (lst - radians (ra + 360 * IZR k) + PI)
    with (lst - radians ra + PI + 2 * PI * IZR (- k))
    by (rewrite opp_IZR; unfold radians; field).
  rewrite pymod_add_mult by (pose proof PI_RGT_0; lra).
  reflexivity.
Qed.

(** X6.  [raDec2AltAz] is unchanged by whole turns added to the right
    ascension or to the longitude. *)
Theorem raDec2AltAz_full_turns (JD lon lat ra dec : R) (j k : Z) :
  raDec2AltAz JD (lon + 360 * IZR j) lat (ra + 360 * IZR k) dec
  = raDec2AltAz JD lon lat ra dec.
Proof.
  unfold raDec2AltAz. cbv zeta. rewrite !raDec2AltAz_lst.
  replace (radians (siderealTime JD + (lon + 360 * IZR j))
           - radians (ra + 360 * IZR k) + PI)
    with (radians (siderealTime JD + lon) - radians ra + PI
          + 2 * PI * IZR (j - k))
    by (rewrite minus_IZR; unfold radians; field).
  rewrite pymod_add_mult by (pose proof PI_RGT_0; lra).
  reflexivity.
Qed.

Lemma pymod_self (m : R) : 0 < m -> pymod m m = 0.
Proof.
  intros Hm. replace m with (0 + m * IZR 1) at 1 by (simpl; lra).
  rewrite pymod_add_mult by lra. apply pymod_small. lra.
Qed.

Lemma asin_minus_1 : asin (-1) = - (PI / 2).
Proof. replace (-1) with (Ropp 1) by lra. rewrite asin_opp, asin_1. reflexivity. Qed.

(** X7.  For an object exactly at the zenith (declination equal to the
    latitude, right ascension equal to the local sidereal time) the sine of
    the elevation is 1, the wrap [(sin_elev + 1)%2 - 1] turns it into -1, and
    [raDec2AltAz] returns the altitude -90 instead of 90. *)
Theorem raDec2AltAz_zenith (JD lon lat : R) :
  (raDec2AltAz JD lon lat (siderealTime JD + lon) lat).2 = -90.
Proof.
  pose proof PI_RGT_0 as Hpi.
  unfold raDec2AltAz. cbv zeta. cbn [snd]. rewrite !raDec2AltAz_lst.
  replace (radians (siderealTime JD + lon) - radians (siderealTime JD + lon) + PI)
    with PI by lra.
  rewrite (pymod_small PI (2 * PI)) by lra.
  replace (PI - PI) with 0 by lra. rewrite cos_0.
  replace (sin (radians lat) * sin (radians lat)
           + cos (radians lat) * cos (radians lat) * 1 + 1) with 2
    by (pose proof (cos_pow2 (radians lat)); lra).
  rewrite pymod_self by lra.
  replace (0 - 1) with (-1) by lra.
  rewrite asin_minus_1, degrees_opp, degrees_half_PI. reflexivity.
Qed.

(** ** To the horizon and back through the two conversion functions *)

Lemma degrees_radians (d : R) : degrees (radians d) = d.
Proof. pose proof PI_RGT_0. unfold degrees, radians. field. lra. Qed.

Lemma same_dir_sym (a b : R) : same_dir a b -> same_dir b a.
Proof. intros [H1 H2]. split; symmetry; assumption. Qed.

(** Two angles of one turn that point in the same direction are equal. *)
Lemma same_dir_inj (a b : R) :
  0 <= a < 2 * PI -> 0 <= b < 2 * PI -> same_dir a b -> a = b.
Proof.
  intros Ha Hb [Hc Hs]. pose proof PI_RGT_0 as Hpi.
  destruct (Rle_dec a PI) as [Ha'|Ha'], (Rle_dec b PI) as [Hb'|Hb'].
  - apply cos_inj; [lra|lra|exact Hc].
  - exfalso. assert (0 <= sin a) by (apply sin_ge_0; lra).
    assert (sin b < 0) by (apply sin_lt_0; lra). lra.
  - exfalso. assert (0 <= sin b) by (apply sin_ge_0; lra).
    assert (sin a < 0) by (apply sin_lt_0; lra). lra.
  - assert (E : a - PI = b - PI); [|lra].
    apply cos_inj; [lra|lra|].
    rewrite !cos_minus, cos_PI, sin_PI, Hc. lra.
Qed.

Lemma pymod_360_same_dir (a b : R) :
  same_dir (radians a) (radians b) -> pymod a 360 = pymod b 360.
Proof.
  intros Hab. pose proof PI_RGT_0 as Hpi.
  pose proof (pymod_bound a 360 ltac:(lra)) as Ha.
  pose proof (pymod_bound b 360 ltac:(lra)) as Hb.
  assert (E : radians (pymod a 360) = radians (pymod b 360)).
  { apply same_dir_inj.
    - unfold radians. split; [apply Rmult_le_pos; [apply Rmult_le_pos|]; lra|].
      apply (Rmult_lt_reg_r 180); [lra|]. field_simplify. nra.
    - unfold radians. split; [apply Rmult_le_pos; [apply Rmult_le_pos|]; lra|].
      apply (Rmult_lt_reg_r 180); [lra|]. field_simplify. nra.
    - eapply same_dir_trans; [apply same_dir_pymod|].
      eapply same_dir_trans; [exact Hab|]. apply same_dir_sym, same_dir_pymod. }
  unfold radians in E. nra.
Qed.

(** The sine of the elevation is the cosine of an angular distance. *)
Lemma sin_elev_bound (phi delta h : R) :
  -1 <= sin phi * sin delta + cos phi * cos delta * cos h <= 1.
Proof.
  pose proof (cos_pow2 phi) as Pp. pose proof (cos_pow2 delta) as Pd.
  pose proof (cos_pow2 h) as Ph.
  assert (H1 : 2 * (1 - (sin phi * sin delta + cos phi * cos delta * cos h))
               = (sin phi - sin delta) ^ 2 + (cos phi * cos h - cos delta) ^ 2
                 + (cos phi * sin h) ^ 2) by ring [Pp Pd Ph].
  assert (H2 : 2 * (1 + (sin phi * sin delta + cos phi * cos delta * cos h))
               = (sin phi + sin delta) ^ 2 + (cos phi * cos h + cos delta) ^ 2
                 + (cos phi * sin h) ^ 2) by ring [Pp Pd Ph].
  pose proof (pow2_ge_0 (sin phi - sin delta)).
  pose proof (pow2_ge_0 (cos phi * cos h - cos delta)).
  pose proof (pow2_ge_0 (sin phi + sin delta)).
  pose proof (pow2_ge_0 (cos phi * cos h + cos delta)).
  pose proof (pow2_ge_0 (cos phi * sin h)).
  lra.
Qed.

(** The wrap of [raDec2AltAz] sends both ends of the range of a sine to the
    altitude -90. *)
Lemma wrapped_elevation_ends (s : R) :
  s = 1 \/ s = -1 -> degrees (asin (pymod (s + 1) 2 - 1)) = -90.
Proof.
  intros [->| ->].
  - replace (1 + 1) with 2 by lra. rewrite pymod_self by lra.
    replace (0 - 1) with (-1) by lra.
    rewrite asin_minus_1, degrees_opp, degrees_half_PI. reflexivity.
  - replace (-1 + 1) with 0 by lra. rewrite pymod_small by lra.
    replace (0 - 1) with (-1) by lra.
    rewrite asin_minus_1, degrees_opp, degrees_half_PI. reflexivity.
Qed.

(** The hour angle wrapped to [-pi, pi) keeps its direction. *)
Lemma same_dir_wrapped_hour_angle (x : R) :
  same_dir (pymod (x + PI) (2 * PI) - PI) x.
Proof.
  assert (E : pymod (x + PI) (2 * PI) - PI
              = x + 2 * IZR (- Zfloor ((x + PI) / (2 * PI))) * PI).
  { unfold pymod. rewrite opp_IZR.
    generalize (IZR (Zfloor ((x + PI) / (2 * PI)))). intros k. lra. }
  rewrite E. split; [apply cos_turns|apply sin_turns].
Qed.

(** The direction opposite to that of a vector, after scaling. *)
Lemma atan2_opposite (s c k : R) :
  0 < k -> c <> 0 \/ s <> 0 ->
  same_dir (PI + atan2 s c) (atan2 (- (k * s)) (- (k * c))).
Proof.
  intros Hk Hnz.
  destruct (atan2_dir s c Hnz) as [Hc Hs].
  assert (Hpos : 0 < c ^ 2 + s ^ 2).
  { pose proof (pow2_ge_0 c) as Hc2. pose proof (pow2_ge_0 s) as Hs2.
    destruct Hnz as [Hne|Hne].
    - assert (0 < c ^ 2) by (unfold pow; nra). lra.
    - assert (0 < s ^ 2) by (unfold pow; nra). lra. }
  assert (Hn0 : 0 < sqrt (c ^ 2 + s ^ 2)) by (apply sqrt_lt_R0; exact Hpos).
  assert (Hn : sqrt ((- (k * c)) ^ 2 + (- (k * s)) ^ 2) = k * sqrt (c ^ 2 + s ^ 2)).
  { replace ((- (k * c)) ^ 2 + (- (k * s)) ^ 2) with (k² * (c ^ 2 + s ^ 2))
      by (unfold Rsqr; ring).
    rewrite sqrt_mult_alt by apply Rle_0_sqr. rewrite sqrt_Rsqr by lra. reflexivity. }
  destruct (atan2_dir (- (k * s)) (- (k * c))) as [Hc' Hs'].
  { destruct Hnz as [H|H]; [left|right]; nra. }
  rewrite Hn in Hc', Hs'.
  split.
  - rewrite Rplus_comm, neg_cos, Hc, Hc'. field. split; lra.
  - rewrite Rplus_comm, neg_sin, Hs, Hs'. field. split; lra.
Qed.

Lemma atan2_asin (z r : R) :
  -1 < z < 1 -> r = sqrt (1 - z²) -> asin z = atan2 z r.
Proof.
  intros Hz ->.
  assert (Hr : 0 < sqrt (1 - z²)).
  { apply sqrt_lt_R0. unfold Rsqr. nra. }
  unfold atan2. destruct (Rlt_dec 0 (sqrt (1 - z²))); [|contradiction].
  apply asin_atan. exact Hz.
Qed.

(** One point: [raDec2AltAz] followed by the loop body of [altAz2RADec] at the
    same Julian date. *)
Lemma raDecPoint_of_raDec2AltAz (JD lon lat ra dec : R) :
  -90 < dec < 90 ->
  (raDec2AltAz JD lon lat ra dec).2 <> -90 ->
  raDecPoint lat lon JD (raDec2AltAz JD lon lat ra dec).1
    (raDec2AltAz JD lon lat ra dec).2
  = (pymod ra 360, dec).
Proof.
  intros Hdec Halt. pose proof PI_RGT_0 as Hpi.
  unfold raDec2AltAz in Halt |- *. cbv zeta in Halt |- *. cbn [fst snd] in Halt |- *.
  rewrite !raDec2AltAz_lst in Halt |- *.
  set (phi := radians lat) in *. set (delta := radians dec) in *.
  set (lstr := radians (siderealTime JD + lon)) in *.
  set (ha := pymod (lstr - radians ra + PI) (2 * PI) - PI) in *.
  set (se := sin phi * sin delta + cos phi * cos delta * cos ha) in *.
  assert (Hdelta : - (PI / 2) < delta < PI / 2).
  { pose proof (radians_lt _ _ (proj1 Hdec)) as H1.
    pose proof (radians_lt _ _ (proj2 Hdec)) as H2.
    rewrite radians_90 in H2.
    replace (radians (-90)) with (- (PI / 2)) in H1 by (unfold radians; lra).
    fold delta in H1, H2. lra. }
  assert (HcD : 0 < cos delta) by (apply cos_gt_0; lra).
  assert (Hse : -1 < se < 1).
  { pose proof (sin_elev_bound phi delta ha) as Hb. fold se in Hb.
    destruct (Req_dec se 1) as [E|E1];
      [exfalso; apply Halt, wrapped_elevation_ends; left; exact E|].
    destruct (Req_dec se (-1)) as [E|E2];
      [exfalso; apply Halt, wrapped_elevation_ends; right; exact E|].
    lra. }
  rewrite (pymod_small (se + 1) 2) by lra.
  replace (se + 1 - 1) with se by lra.
  clear Halt.
  pose proof (asin_bound_lt se Hse) as HA.
  assert (Hnudge : nudgeAltitude (degrees (asin se)) = degrees (asin se)).
  { unfold nudgeAltitude.
    destruct (Req_dec_T (degrees (asin se)) 90) as [E|_]; [|reflexivity].
    exfalso. pose proof (degrees_lt_90 (asin se) ltac:(lra)). lra. }
  unfold raDecPoint. rewrite Hnudge. unfold raDecTrig. cbv zeta.
  rewrite !radians_degrees. fold phi.
  set (x := - cos ha * cos delta * sin phi + sin delta * cos phi).
  set (y := - sin ha * cos delta).
  set (z := cos ha * cos delta * cos phi + sin delta * sin phi).
  assert (Hz : se = z) by (unfold se, z; ring).
  pose proof (cos_pow2 ha) as Ph. pose proof (cos_pow2 delta) as Pd.
  pose proof (cos_pow2 phi) as Pp.
  assert (Hxy : x ^ 2 + y ^ 2 = 1 - z ^ 2) by (unfold x, y, z; ring [Ph Pd Pp]).
  set (xa := cos ha * sin phi - tan delta * cos phi).
  assert (Hx : x = - (cos delta * xa)).
  { unfold x, xa, tan. field. lra. }
  assert (Hy : y = - (cos delta * sin ha)) by (unfold y; ring).
  assert (Hnz : xa <> 0 \/ sin ha <> 0).
  { destruct (Req_dec xa 0) as [E|E]; [right|left; exact E].
    intros E'. rewrite E in Hx. rewrite E' in Hy. rewrite Hx, Hy in Hxy.
    rewrite <- Hz in Hxy. nra. }
  assert (Haz : same_dir (PI + atan2 (sin ha) xa) (atan2 y x)).
  { rewrite Hx, Hy. apply atan2_opposite; assumption. }
  assert (Halt : asin se = atan2 z (sqrt (x ^ 2 + y ^ 2))).
  { rewrite Hz. apply atan2_asin; [rewrite <- Hz; exact Hse|].
    rewrite Hxy. f_equal. unfold Rsqr. ring. }
  assert (Hz' : -1 < cos ha * cos delta * cos phi + sin delta * sin phi < 1).
  { fold z. rewrite <- Hz. exact Hse. }
  destruct (horizontal_round_trip phi ha delta (PI + atan2 (sin ha) xa) (asin se)
              HcD Hz' Haz Halt) as (_ & Hx' & Hy' & Hd').
  rewrite Hx', Hy', Hd'.
  rewrite asin_sin by lra. unfold delta. rewrite degrees_radians.
  f_equal. fold (siderealTime JD).
  apply pymod_360_same_dir.
  rewrite radians_minus, radians_degrees. fold lstr. fold delta.
  apply same_dir_trans with (lstr - (lstr - radians ra));
    [|replace (lstr - (lstr - radians ra)) with (radians ra) by lra;
      apply same_dir_refl].
  apply same_dir_minus; [apply same_dir_refl|].
  apply same_dir_trans with ha; [|apply same_dir_wrapped_hour_angle].
  apply atan2_unit; [exact HcD|]. lra.
Qed.

(** At the pole an object on the celestial equator is on the horizon. *)
Lemma raDec2AltAz_pole_equator (JD lon ra : R) :
  (raDec2AltAz JD lon 90 ra 0).2 = 0.
Proof.
  unfold raDec2AltAz. cbv zeta. cbn [snd].
  rewrite radians_90, radians_0, sin_PI2, cos_PI2, sin_0, cos_0.
  match goal with |- context [pymod (?u + 1) 2] =>
    replace u with 0 by ring
  end.
  rewrite pymod_small by lra.
  replace (0 + 1 - 1) with 0 by lra.
  rewrite asin_0. unfold degrees. field. pose proof PI_RGT_0. lra.
Qed.

(** ** C2: the ranges of the equatorial-to-horizontal conversion *)




Section RoundTrip.

Context {TimeData : Type}.
Variable date2JD : TimeData -> R -> R.
Variable datetime2JD : TimeData -> R -> R.

(** X8.  Round trip.  The azimuth and altitude that [raDec2AltAz] returns for
    a direction with declination strictly between -90 and 90, when that
    altitude is not -90, are turned back by [altAz2RADec], at the same Julian
    date, into the declination and the right ascension reduced to
    [0, 360). *)
Theorem raDec2AltAz_altAz2RADec_round_trip (lat lon UT_corr : R)
    (entry : TimeData) (ra dec : R) :
  -90 < dec < 90 ->
  (raDec2AltAz (date2JD entry (- UT_corr)) lon lat ra dec).2 <> -90 ->
  altAz2RADec date2JD datetime2JD lat lon UT_corr [entry]
    [(raDec2AltAz (date2JD entry (- UT_corr)) lon lat ra dec).1]
    [(raDec2AltAz (date2JD entry (- UT_corr)) lon lat ra dec).2] false
  = Some ([date2JD entry (- UT_corr)], [pymod ra 360], [dec]).
Proof.
  intros Hdec Halt.
  rewrite altAz2RADec_map by (cbn [length]; lia).
  cbn [zip zip_with fst snd].
  rewrite (raDecPoint_of_raDec2AltAz _ lon lat ra dec Hdec Halt).
  reflexivity.
Qed.

End RoundTrip.

Lemma raDec2AltAz_altAz2RADec_round_trip_witness :
  -90 < 0 < 90
  /\ (raDec2AltAz 2451545 15 90 100 0).2 <> -90
  /\ altAz2RADec (fun (jd : R) (_ : R) => jd) (fun (jd : R) (_ : R) => jd) 90 15 0
       [2451545]
       [(raDec2AltAz 2451545 15 90 100 0).1] [(raDec2AltAz 2451545 15 90 100 0).2]
       false
     = Some ([2451545], [pymod 100 360], [0]).
Proof.
  assert (Hdec : -90 < 0 < 90) by lra.
  assert (Halt : (raDec2AltAz 2451545 15 90 100 0).2 <> -90)
    by (rewrite raDec2AltAz_pole_equator; lra).
  split; [exact Hdec|]. split; [exact Halt|].
  exact (raDec2AltAz_altAz2RADec_round_trip
           (fun (jd : R) (_ : R) => jd) (fun (jd : R) (_ : R) => jd) 90 15 0
           2451545 100 0 Hdec Halt).
Defined.

(** ** Photometry *)

Lemma ln_10_pos : 0 < ln 10.
Proof. rewrite <- ln_1. apply ln_increasing; lra. Qed.

Lemma calculateMagnitudes_lookup_positive (level_data : list float64)
    (slope offset : R) (i : nat) (level : R) :
  level_data !! i = Some (Finite level) -> 0 < level ->
  calculateMagnitudes level_data (Finite slope) (Finite offset) !! i
  = Some (Finite (slope * (ln level / ln 10) + offset)).
Proof.
  intros Hi Hl. rewrite calculateMagnitudes_map, list_lookup_fmap, Hi.
  cbn [fmap option_fmap option_map]. unfold f64_log10.
  destruct (Rlt_dec 0 level); [reflexivity|contradiction].
Qed.

(** X9.  With a finite slope and offset, the magnitudes of two entries with
    positive levels differ by the slope times the decimal logarithm of the
    ratio of the levels, whatever the offset; with a negative slope the
    entry with the higher level has the smaller magnitude. *)
Theorem calculateMagnitudes_level_ratio (level_data : list float64)
    (slope offset : R) (i j : nat) (level1 level2 : R) :
  level_data !! i = Some (Finite level1) ->
  level_data !! j = Some (Finite level2) ->
  0 < level1 -> 0 < level2 ->
  exists m1 m2,
    calculateMagnitudes level_data (Finite slope) (Finite offset) !! i
      = Some (Finite m1)
    /\ calculateMagnitudes level_data (Finite slope) (Finite offset) !! j
       = Some (Finite m2)
    /\ m2 - m1 = slope * (ln (level2 / level1) / ln 10)
    /\ (slope < 0 -> level1 < level2 -> m2 < m1).
Proof.
  intros Hi Hj H1 H2. pose proof ln_10_pos as H10.
  exists (slope * (ln level1 / ln 10) + offset), (slope * (ln level2 / ln 10) + offset).
  split; [apply calculateMagnitudes_lookup_positive; assumption|].
  split; [apply calculateMagnitudes_lookup_positive; assumption|].
  split.
  - change (level2 / level1) with (level2 * / level1). rewrite ln_mult by (try apply Rinv_0_lt_compat; lra).
    rewrite ln_Rinv by lra. field. lra.
  - intros Hs Hlt. pose proof (ln_increasing level1 level2 H1 Hlt) as Hln.
    assert (Hq : ln level1 / ln 10 < ln level2 / ln 10).
    { unfold Rdiv. apply Rmult_lt_compat_r; [apply Rinv_0_lt_compat; lra|lra]. }
    nra.
Qed.

Lemma calculateMagnitudes_level_ratio_witness :
  [Finite 10; Finite 1000] !! 0%nat = Some (Finite 10)
  /\ [Finite 10; Finite 1000] !! 1%nat = Some (Finite 1000)
  /\ 0 < 10 /\ 0 < 1000
  /\ exists m1 m2,
       calculateMagnitudes [Finite 10; Finite 1000] (Finite (-2.5)) (Finite 8) !! 0%nat
         = Some (Finite m1)
       /\ calculateMagnitudes [Finite 10; Finite 1000] (Finite (-2.5)) (Finite 8) !! 1%nat
          = Some (Finite m2)
       /\ m2 - m1 = -2.5 * (ln (1000 / 10) / ln 10)
       /\ (-2.5 < 0 -> 10 < 1000 -> m2 < m1).
Proof.
  assert (H1 : 0 < 10) by lra. assert (H2 : 0 < 1000) by lra.
  split; [reflexivity|]. split; [reflexivity|].
  split; [exact H1|]. split; [exact H2|].
  exact (calculateMagnitudes_level_ratio [Finite 10; Finite 1000] (-2.5) 8
           0%nat 1%nat 10 1000 eq_refl eq_refl H1 H2).
Defined.

(** *** The fit *)

Lemma np_sum_shift (c : R) (a : list R) :
  np_sum ((fun x => x + c) <$> a) = np_sum a + INR (length a) * c.
Proof.
  induction a as [|x a IH].
  - simpl. lra.
  - cbn [fmap list_fmap np_sum foldr length]. rewrite S_INR.
    change (foldr Rplus 0 ((fun x => x + c) <$> a)) with (np_sum ((fun x => x + c) <$> a)).
    rewrite IH. unfold np_sum. lra.
Qed.

Lemma np_mean_shift (c : R) (a : list R) :
  a <> [] -> np_mean ((fun x => x + c) <$> a) = np_mean a + c.
Proof.
  intros Ha. unfold np_mean. rewrite np_sum_shift, length_fmap.
  field. apply not_0_INR. destruct a; [contradiction|discriminate].
Qed.

(** The standard deviation does not see a constant added to every
    element. *)
Lemma np_std_shift (c : R) (a : list R) :
  np_std ((fun x => x + c) <$> a) = np_std a.
Proof.
  destruct a as [|x0 a0]; [reflexivity|].
  set (a := x0 :: a0). assert (Ha : a <> []) by discriminate.
  unfold np_std. rewrite (np_mean_shift c a Ha).
  rewrite <- list_fmap_compose. do 2 f_equal.
  apply list_fmap_ext. intros i x _. unfold compose. do 2 f_equal. lra.
Qed.

Lemma zip_with_Rminus_shift (d : R) (a b : list R) :
  zip_with Rminus a ((fun y => y + d) <$> b)
  = (fun x => x - d) <$> zip_with Rminus a b.
Proof.
  revert b. induction a as [|x a IH]; intros [|y b]; simpl; try reflexivity.
  rewrite IH. f_equal. lra.
Qed.

(** Adding a constant to the subtrahend subtracts it from the difference,
    broadcast or not. *)
Lemma np_sub_shift (d : R) (a b : list R) :
  np_sub a ((fun y => y + d) <$> b)
  = fmap (M:=option) (fmap (M:=list) (fun x => x - d)) (np_sub a b).
Proof.
  unfold np_sub. rewrite length_fmap.
  destruct (decide (length a = length b)) as [_|_].
  - cbn [fmap option_fmap option_map]. f_equal. apply zip_with_Rminus_shift.
  - destruct a as [|x [|x' a]], b as [|y [|y' b]];
      cbn [fmap list_fmap option_fmap option_map]; try reflexivity.
    all: f_equal; repeat (apply (f_equal2 cons); [lra|]); try reflexivity.
    all: rewrite <- ?list_fmap_compose; apply list_fmap_ext; intros i z _;
      unfold compose; lra.
Qed.

(** X10.  The standard deviation that [photometryFit] returns does not depend
    on the fitted offset: whatever two optimisers return as the offset for
    the same data, the residuals differ by the difference of the offsets, a
    constant, and the standard deviations are equal. *)
Theorem photometryFit_stddev_ignores_offset
    (curve_fit curve_fit' : (R -> R -> R) -> list R -> list R -> option (list R))
    (logsum_px catalog_mags : list R) (offset stddev : R) (resids : list R)
    (offset' stddev' : R) (resids' : list R) :
  photometryFit curve_fit logsum_px catalog_mags = Some (offset, stddev, resids) ->
  photometryFit curve_fit' logsum_px catalog_mags = Some (offset', stddev', resids') ->
  resids' = (fun r => r + (offset - offset')) <$> resids /\ stddev' = stddev.
Proof.
  unfold photometryFit. intros H H'.
  destruct (curve_fit photomLine logsum_px catalog_mags) as [[|p [|? ?]]|];
    try discriminate.
  destruct (curve_fit' photomLine logsum_px catalog_mags) as [[|p' [|? ?]]|];
    try discriminate.
  cbn [mbind option_bind] in H, H'.
  assert (Hline : (fun lsp => photomLine lsp p') <$> logsum_px
                  = (fun y => y + (p' - p)) <$> ((fun lsp => photomLine lsp p) <$> logsum_px)).
  { rewrite <- list_fmap_compose. apply list_fmap_ext. intros i x _.
    unfold compose, photomLine. lra. }
  rewrite Hline, np_sub_shift in H'.
  destruct (np_sub catalog_mags ((fun lsp => photomLine lsp p) <$> logsum_px))
    as [rs|]; [|discriminate].
  cbn [fmap option_fmap option_map mbind option_bind] in H, H'.
  inversion H; subst. inversion H'; subst.
  assert (E : (fun x => x - (offset' - offset)) <$> resids
              = (fun r => r + (offset - offset')) <$> resids).
  { apply list_fmap_ext. intros i x _. lra. }
  rewrite E. split; [reflexivity|]. apply np_std_shift.
Qed.

Lemma photometryFit_stddev_ignores_offset_witness :
  exists stddev resids stddev' resids',
    photometryFit (fun _ _ _ => Some [8]) [1; 2] [5; 7] = Some (8, stddev, resids)
    /\ photometryFit (fun _ _ _ => Some [3]) [1; 2] [5; 7] = Some (3, stddev', resids')
    /\ resids' = (fun r => r + (8 - 3)) <$> resids /\ stddev' = stddev.
Proof.
  eexists _, _, _, _.
  split; [reflexivity|]. split; [reflexivity|].
  exact (photometryFit_stddev_ignores_offset (fun _ _ _ => Some [8])
           (fun _ _ _ => Some [3]) [1; 2] [5; 7] 8 _ _ 3 _ _ eq_refl eq_refl).
Defined.

(** ** The rotation queries and the position-angle solvers *)

(** X11.  Whenever [rotationWrtHorizon] returns, its value lies in
    [-180, 180]: the subtraction of 360 above 180 never applies. *)
Theorem rotationWrtHorizon_range (platepar : Platepar) (rot_angle : R) :
  rotationWrtHorizon platepar = Some rot_angle -> -180 <= rot_angle <= 180.
Proof.
  destruct (rotationWrtHorizon_total platepar) as (rot & Hrot & Hb).
  rewrite Hrot. intros H. injection H as <-. lra.
Qed.

Lemma rotationWrtHorizon_range_witness :
  exists rot_angle,
    rotationWrtHorizon platepar_sample = Some rot_angle
    /\ -180 <= rot_angle <= 180.
Proof.
  destruct (rotationWrtHorizon_total platepar_sample) as (rot & Hrot & _).
  exists rot. split; [exact Hrot|].
  exact (rotationWrtHorizon_range platepar_sample rot Hrot).
Defined.

Section StandardRotationErrors.

Context {TimeData : Type}.
Variable date2JD : TimeData -> R.
Variable jd2Date : R -> TimeData.
Variable cyXYToRADec :
  list R -> list R -> list R -> R -> R -> R -> R -> R -> R -> R -> R -> R ->
  Poly12 -> Poly12 -> option (list R * list R).

(** X12.  [rotationWrtStandard] raises exactly when [cyXYToRADec] raises on
    the two probe pixels (the image centre and the pixel ten columns to its
    right) or returns fewer than two right ascensions or declinations;
    otherwise it returns a value in the closed interval [0, 360]. *)
Theorem rotationWrtStandard_range (platepar : Platepar) :
  let probe :=
    cyXYToRADec (date2JD <$> replicate 2 (jd2Date (JD platepar)))
      [IZR (X_res platepar) / 2; IZR (X_res platepar) / 2 + 10]
      [IZR (Y_res platepar) / 2; IZR (Y_res platepar) / 2]
      (lat platepar) (lon platepar) (Ho platepar)
      (IZR (X_res platepar)) (IZR (Y_res platepar)) (RA_d platepar)
      (dec_d platepar) (pos_angle_ref platepar) (F_scale platepar)
      (x_poly_fwd platepar) (y_poly_fwd platepar) in
  match rotationWrtStandard date2JD jd2Date cyXYToRADec platepar with
  | Some rot_angle =>
      0 <= rot_angle <= 360
      /\ exists ra dec,
           probe = Some (ra, dec) /\ (2 <= length ra)%nat /\ (2 <= length dec)%nat
  | None =>
      probe = None
      \/ exists ra dec,
           probe = Some (ra, dec) /\ ((length ra < 2)%nat \/ (length dec < 2)%nat)
  end.
Proof.
  intros probe.
  unfold rotationWrtStandard, XY2CorrectedRADecPP, XY2CorrectedRADec. cbv zeta.
  fold probe. destruct probe as [[ra dec]|]; [|left; reflexivity].
  cbn [mbind option_bind].
  destruct ra as [|ra0 [|ra1 ra]], dec as [|dec0 [|dec1 dec]];
    cbn [lookup list_lookup mbind option_bind];
    try (right; eexists _, _; split; [reflexivity|]; cbn [length];
         first [left; lia | right; lia]).
  split; [match goal with |- _ <= pymod ?a _ <= _ =>
            pose proof (pymod_bound a 360 ltac:(lra)) end; lra|].
  eexists _, _. split; [reflexivity|]. cbn [length]. lia.
Qed.

End StandardRotationErrors.

Section SolverResult.

Variable minimize : R -> Minimizer.
Variable rotation : Platepar -> option R.

Lemma rotationToPosAngle_range (platepar : ref) (rot_angle x : R) (s s' : Store) :
  rotationToPosAngle minimize rotation platepar rot_angle s = Some (x, s') ->
  0 <= x <= 360.
Proof.
  unfold rotationToPosAngle, py_bind at 1, deepcopy.
  destruct (s !! platepar) as [o|]; [|discriminate].
  unfold py_bind at 1, py_deref. rewrite lookup_insert_eq.
  unfold py_bind at 1.
  destruct (runMinimizer _ _ _) as [[x0 s1]|]; [|discriminate].
  unfold py_ret. intros H. inversion H; subst.
  match goal with |- _ <= pymod ?a _ <= _ =>
    pose proof (pymod_bound a 360 ltac:(lra)) end.
  lra.
Qed.

Lemma rotationToPosAngle_target_turns (platepar : ref) (rot_angle : R) (k : Z) :
  rotationToPosAngle minimize rotation platepar (rot_angle + 360 * IZR k)
  = rotationToPosAngle minimize rotation platepar rot_angle.
Proof.
  unfold rotationToPosAngle. cbv zeta. rewrite pymod_add_mult by lra. reflexivity.
Qed.

End SolverResult.

(** X13.  The position angle returned by either solver lies in the closed
    interval [0, 360]. *)
Theorem posAngle_solvers_range (TimeData : Type) (date2JD : TimeData -> R)
    (jd2Date : R -> TimeData)
    (cyXYToRADec :
       list R -> list R -> list R -> R -> R -> R -> R -> R -> R -> R -> R -> R ->
       Poly12 -> Poly12 -> option (list R * list R))
    (minimize : R -> Minimizer) (platepar : ref) (rot_angle : R) (s : Store)
    (x : R) (s' : Store) :
  rotationWrtHorizonToPosAngle minimize platepar rot_angle s = Some (x, s')
  \/ rotationWrtStandardToPosAngle date2JD jd2Date cyXYToRADec minimize platepar
       rot_angle s = Some (x, s') ->
  0 <= x <= 360.
Proof.
  intros [H|H]; eapply rotationToPosAngle_range; exact H.
Qed.

Lemma posAngle_solvers_range_witness :
  exists x s',
    (rotationWrtHorizonToPosAngle minimize_sample 0%nat 90
       {[0%nat := platepar_sample]} = Some (x, s')
     \/ rotationWrtStandardToPosAngle (fun t : R => t) (fun jd : R => jd)
          cyXYToRADec_model minimize_sample 0%nat 90
          {[0%nat := platepar_sample]} = Some (x, s'))
    /\ 0 <= x <= 360.
Proof.
  destruct (rotationToPosAngle_total minimize_sample rotationWrtHorizon 0%nat 90
              {[0%nat := platepar_sample]} platepar_sample) as [[x s'] Hrun].
  { intros o0. destruct (rotationWrtHorizon_total o0) as (rot & -> & _). eauto. }
  { apply lookup_singleton_eq. }
  exists x, s'.
  assert (Hor : rotationWrtHorizonToPosAngle minimize_sample 0%nat 90
                  {[0%nat := platepar_sample]} = Some (x, s')
                \/ rotationWrtStandardToPosAngle (fun t : R => t) (fun jd : R => jd)
                     cyXYToRADec_model minimize_sample 0%nat 90
                     {[0%nat := platepar_sample]} = Some (x, s'))
    by (left; exact Hrun).
  split; [exact Hor|].
  exact (posAngle_solvers_range R (fun t : R => t) (fun jd : R => jd)
           cyXYToRADec_model minimize_sample 0%nat 90 _ x s' Hor).
Defined.

(** X14.  The solvers see their target rotation modulo 360 only: whole turns
    added to [rot_angle] change neither the result nor the final store. *)
Theorem posAngle_solvers_target_turns (TimeData : Type) (date2JD : TimeData -> R)
    (jd2Date : R -> TimeData)
    (cyXYToRADec :
       list R -> list R -> list R -> R -> R -> R -> R -> R -> R -> R -> R -> R ->
       Poly12 -> Poly12 -> option (list R * list R))
    (minimize : R -> Minimizer) (platepar : ref) (rot_angle : R) (k : Z)
    (s : Store) :
  rotationWrtHorizonToPosAngle minimize platepar (rot_angle + 360 * IZR k) s
  = rotationWrtHorizonToPosAngle minimize platepar rot_angle s
  /\ rotationWrtStandardToPosAngle date2JD jd2Date cyXYToRADec minimize platepar
       (rot_angle + 360 * IZR k) s
     = rotationWrtStandardToPosAngle date2JD jd2Date cyXYToRADec minimize platepar
         rot_angle s.
Proof.
  unfold rotationWrtHorizonToPosAngle, rotationWrtStandardToPosAngle.
  rewrite !rotationToPosAngle_target_turns. split; reflexivity.
Qed.

(** ** The name of the backup copy *)

Lemma append_empty_r (s : string) : String.append s EmptyString = s.
Proof.
  induction s as [|c s IH]; [reflexivity|].
  change (String c (String.append s EmptyString) = String c s). f_equal. exact IH.
Qed.

Lemma concat_empty_cons (x : string) (xs : list string) :
  String.concat "" (x :: xs) = String.append x (String.concat "" xs).
Proof.
  destruct xs as [|y ys]; [|reflexivity].
  cbn [String.concat]. symmetry. apply append_empty_r.
Qed.

Lemma str_split_nonempty (sep : ascii) (s : string) : str_split sep s <> [].
Proof.
  destruct s as [|c s]; simpl; [discriminate|].
  destruct (Ascii.eqb c sep); [discriminate|].
  destruct (str_split sep s); discriminate.
Qed.

(** A string without the separator is a single part. *)
Lemma str_split_no_sep (sep : ascii) (s : string) :
  str_contains sep s = false -> str_split sep s = [s].
Proof.
  induction s as [|c s IH]; simpl; [reflexivity|].
  destruct (Ascii.eqb c sep); simpl; [discriminate|].
  intros H. now rewrite (IH H).
Qed.

(** Splitting distributes over a separator. *)
Lemma str_split_app (sep : ascii) (a b : string) :
  str_split sep (String.append a (String sep b))
  = str_split sep a ++ str_split sep b.
Proof.
  induction a as [|c a IH]; simpl.
  - now rewrite Ascii.eqb_refl.
  - destruct (Ascii.eqb c sep); [now rewrite IH|].
    rewrite IH. pose proof (str_split_nonempty sep a) as Hne.
    destruct (str_split sep a); [contradiction|reflexivity].
Qed.

(** Joining the parts with the empty string removes the separators. *)
Lemma concat_str_split (sep : ascii) (s : string) :
  String.concat "" (str_split sep s) = str_without sep s.
Proof.
  induction s as [|c s IH]; [reflexivity|].
  cbn [str_split str_without].
  destruct (Ascii.eqb c sep).
  - rewrite concat_empty_cons. exact IH.
  - pose proof (str_split_nonempty sep s) as Hne.
    destruct (str_split sep s) as [|p ps]; [contradiction|].
    rewrite concat_empty_cons in IH |- *. rewrite <- IH. reflexivity.
Qed.

(** X15.  For a file name without any dot the backup name is
    ["_uncalibrated.txt"]: the name itself is dropped. *)
Theorem uncalibratedName_no_dot (ftp_detectinfo_file : string) :
  str_contains "." ftp_detectinfo_file = false ->
  uncalibratedName ftp_detectinfo_file = "_uncalibrated.txt"%string.
Proof.
  intros H. unfold uncalibratedName. cbv zeta.
  rewrite (str_split_no_sep _ _ H). reflexivity.
Qed.

Lemma uncalibratedName_no_dot_witness :
  str_contains "." "FTPdetectinfo_HR0001" = false
  /\ uncalibratedName "FTPdetectinfo_HR0001" = "_uncalibrated.txt"%string.
Proof.
  split; [reflexivity|].
  exact (uncalibratedName_no_dot "FTPdetectinfo_HR0001" eq_refl).
Defined.

(** X16.  For a file name [stem.ext], where [ext] is what follows the last
    dot, the backup name is the stem with all of its dots removed, followed
    by ["_uncalibrated.txt"]. *)
Theorem uncalibratedName_drops_dots (stem ext : string) :
  str_contains "." ext = false ->
  uncalibratedName (String.append stem (String "." ext))
  = String.append (str_without "." stem) "_uncalibrated.txt".
Proof.
  intros H. unfold uncalibratedName. cbv zeta.
  rewrite str_split_app, (str_split_no_sep _ _ H).
  rewrite length_app. cbn [length].
  replace (length (str_split "." stem) + 1 - 1)%nat
    with (length (str_split "." stem)) by lia.
  rewrite take_app_length, concat_str_split. reflexivity.
Qed.

Lemma uncalibratedName_drops_dots_witness :
  str_contains "." "txt" = false
  /\ uncalibratedName "FTPdetectinfo_HR0001_20180101.5.txt"
     = "FTPdetectinfo_HR0001_201801015_uncalibrated.txt"%string.
Proof.
  split; [reflexivity|].
  exact (uncalibratedName_drops_dots "FTPdetectinfo_HR0001_20180101.5" "txt" eq_refl).
Defined.

(** ** The driver: what reaches the meteor picks *)

Lemma degrees_0 : degrees 0 = 0.
Proof. unfold degrees. lra. Qed.

Lemma raDec2AltAz_bounds (JD lon lat ra dec : R) :
  0 <= (raDec2AltAz JD lon lat ra dec).1 <= 360
  /\ -90 <= (raDec2AltAz JD lon lat ra dec).2 <= 90.
Proof.
  pose proof PI_RGT_0 as Hpi.
  unfold raDec2AltAz. cbv zeta. cbn [fst snd]. split.
  - match goal with |- _ <= degrees (PI + atan2 ?y ?x) <= _ =>
      pose proof (atan2_bound y x) as [Hlo Hhi];
      assert (H0 : 0 <= PI + atan2 y x) by lra;
      assert (H1 : PI + atan2 y x <= 2 * PI) by lra;
      apply degrees_le in H0; apply degrees_le in H1
    end.
    rewrite degrees_0 in H0. rewrite degrees_mult in H1. lra.
  - match goal with |- _ <= degrees (asin ?u) <= _ =>
      pose proof (asin_bound u) as [Hlo Hhi];
      apply degrees_le in Hlo; apply degrees_le in Hhi
    end.
    rewrite degrees_opp, degrees_half_PI in Hlo. rewrite degrees_half_PI in Hhi.
    lra.
Qed.

(** The loop that fills the azimuths and altitudes only stores values of
    [raDec2AltAz]. *)
Lemma altAzLoop_Forall (lon lat : R) (JD_data RA_data dec_data : list R)
    (range : list nat) :
  forall az_data alt_data az_data' alt_data',
    Forall (fun azimuth => 0 <= azimuth <= 360) az_data ->
    Forall (fun altitude => -90 <= altitude <= 90) alt_data ->
    altAzLoop lon lat JD_data RA_data dec_data range az_data alt_data
    = Some (az_data', alt_data') ->
    Forall (fun azimuth => 0 <= azimuth <= 360) az_data'
    /\ Forall (fun altitude => -90 <= altitude <= 90) alt_data'.
Proof.
  induction range as [|i range IH]; intros az alt az' alt' Haz Halt Hrun.
  - inversion Hrun; subst. split; assumption.
  - cbn [altAzLoop] in Hrun.
    destruct (JD_data !! i) as [jd|]; [|discriminate].
    destruct (RA_data !! i) as [ra|]; [|discriminate].
    destruct (dec_data !! i) as [dec|]; [|discriminate].
    cbn [mbind option_bind] in Hrun.
    pose proof (raDec2AltAz_bounds jd lon lat ra dec) as [Ha Hb].
    destruct (raDec2AltAz jd lon lat ra dec) as [a b].
    cbn [fst snd] in Ha, Hb.
    apply IH in Hrun; [exact Hrun| |]; apply Forall_insert; assumption.
Qed.

(** What [np.c_] puts in a row are the entries of its columns at the index
    of the row. *)
Lemma np_c_Some (frames X_data Y_data RA_data dec_data az_data alt_data
    level_data : list R) (magnitudes : list float64) (picks : list Pick) :
  np_c_ frames X_data Y_data RA_data dec_data az_data alt_data level_data
    magnitudes = Some picks ->
  length picks = length level_data
  /\ forall i pick, picks !! i = Some pick ->
       az_data !! i = Some (pick_az pick)
       /\ alt_data !! i = Some (pick_alt pick)
       /\ level_data !! i = Some (pick_level pick)
       /\ magnitudes !! i = Some (pick_magnitude pick).
Proof.
  unfold np_c_. cbv zeta.
  destruct (decide _) as [Hlen|]; [|discriminate]. intros HM.
  pose proof (length_mapM _ _ _ HM) as HL. rewrite length_seq in HL.
  split; [lia|].
  intros i pick Hp. apply mapM_Some in HM.
  destruct (Forall2_lookup_r _ _ _ _ _ HM Hp) as (j & Hj & Hf).
  apply lookup_seq in Hj as [-> _]. cbn [Nat.add] in Hf.
  destruct (frames !! i) as [?|]; [|discriminate].
  destruct (X_data !! i) as [?|]; [|discriminate].
  destruct (Y_data !! i) as [?|]; [|discriminate].
  destruct (RA_data !! i) as [?|]; [|discriminate].
  destruct (dec_data !! i) as [?|]; [|discriminate].
  destruct (az_data !! i) as [?|]; [|discriminate].
  destruct (alt_data !! i) as [?|]; [|discriminate].
  destruct (level_data !! i) as [?|]; [|discriminate].
  destruct (magnitudes !! i) as [?|]; [|discriminate].
  cbn [mbind option_bind] in Hf. inversion Hf; subst.
  cbn [pick_az pick_alt pick_level pick_magnitude]. auto.
Qed.

(** The level column of the masked rows is the level column filtered. *)
Lemma column_maskRows (rows : list (list R)) :
  forall level_data,
    column 8 rows = Some level_data ->
    column 8 (maskRows rows level_data)
    = Some (List.filter level_positive level_data).
Proof.
  unfold column, maskRows.
  induction rows as [|row rows IH]; intros level_data H.
  - inversion H; subst. reflexivity.
  - cbn [mapM] in H.
    destruct (row !! 8%nat) as [l|] eqn:Hl; [|discriminate].
    cbn [mbind option_bind] in H.
    destruct (mapM (fun row0 : list R => row0 !! 8%nat) rows) as [ls|] eqn:Hls;
      [|discriminate].
    cbn [mbind option_bind mret option_ret] in H. inversion H; subst.
    cbn [zip zip_with List.filter snd].
    destruct (level_positive l).
    + cbn [fmap list_fmap fst mapM]. rewrite Hl. cbn [mbind option_bind].
      rewrite (IH ls eq_refl). reflexivity.
    + apply IH. reflexivity.
Qed.

Lemma filter_level_positive (level_data : list R) (i : nat) (level : R) :
  List.filter level_positive level_data !! i = Some level -> 0 < level.
Proof.
  intros H. apply list_elem_of_lookup_2, list_elem_of_In, filter_In in H as [_ H].
  unfold level_positive in H. destruct (Rlt_dec 0 level); [assumption|discriminate].
Qed.

Section DriverInvariants.

Context {TimeData DateTime : Type}.
Variable date2JD : TimeData -> R.
Variable cyXYToRADec :
  list R -> list R -> list R -> R -> R -> R -> R -> R -> R -> R -> R -> R ->
  Poly12 -> Poly12 -> option (list R * list R).
Variable timeAfter : DateTime -> R -> option TimeData.

(** X17.  When the body of the meteor loop of [applyAstrometryFTPdetectinfo]
    produces its picks, their levels are the positive levels of the input
    measurements, in order: measurements with a level of zero or less are
    dropped.  Every pick has a positive level, an azimuth in [0, 360] and an
    altitude in [-90, 90], and, for a finite photometric slope and offset, a
    finite magnitude slope·log10(level) + offset. *)
Theorem meteorPicks_invariants (platepar : Platepar) (time_beg : DateTime)
    (fps : R) (meteor_meas : list (list R)) (picks : list Pick) :
  meteorPicks date2JD cyXYToRADec timeAfter platepar time_beg fps meteor_meas
  = Some picks ->
  (exists level_data,
     column 8 meteor_meas = Some level_data
     /\ pick_level <$> picks = List.filter level_positive level_data)
  /\ Forall (fun pick =>
       0 < pick_level pick
       /\ 0 <= pick_az pick <= 360
       /\ -90 <= pick_alt pick <= 90
       /\ forall slope offset,
            mag_0 platepar = Finite slope -> mag_lev platepar = Finite offset ->
            pick_magnitude pick
            = Finite (slope * (ln (pick_level pick) / ln 10) + offset)) picks.
Proof.
  unfold meteorPicks. intros Hrun.
  destruct (match meteor_meas with [] => None | _ :: _ => column 8 meteor_meas end)
    as [level0|] eqn:Hcol0; [|discriminate].
  assert (Hcol : column 8 meteor_meas = Some level0)
    by (destruct meteor_meas; [discriminate|exact Hcol0]).
  cbn [mbind option_bind] in Hrun. cbv zeta in Hrun.
  destruct (column 1 (maskRows meteor_meas level0)) as [frames|]; [|discriminate].
  cbn [mbind option_bind] in Hrun.
  destruct (column 2 (maskRows meteor_meas level0)) as [X_data|]; [|discriminate].
  cbn [mbind option_bind] in Hrun.
  destruct (column 3 (maskRows meteor_meas level0)) as [Y_data|]; [|discriminate].
  cbn [mbind option_bind] in Hrun.
  rewrite (column_maskRows _ _ Hcol) in Hrun.
  cbn [mbind option_bind] in Hrun.
  set (level_data := List.filter level_positive level0) in *.
  destruct (mapM _ frames) as [time_data|]; [|discriminate].
  cbn [mbind option_bind] in Hrun.
  unfold XY2CorrectedRADecPP, XY2CorrectedRADec in Hrun. cbv zeta in Hrun.
  destruct (cyXYToRADec _ _ _ _ _ _ _ _ _ _ _ _ _ _) as [[RA_data dec_data]|];
    [|discriminate].
  cbn [mbind option_bind] in Hrun.
  destruct (altAzLoop _ _ _ _ _ _ _ _) as [[az_data alt_data]|] eqn:Hloop;
    [|discriminate].
  cbn [mbind option_bind] in Hrun.
  apply altAzLoop_Forall in Hloop as [Haz Halt];
    [|apply Forall_replicate; lra|apply Forall_replicate; lra].
  apply np_c_Some in Hrun as [Hlen Hrow].
  split.
  - exists level0. split; [exact Hcol|]. fold level_data.
    apply list_eq. intros i. rewrite list_lookup_fmap.
    destruct (picks !! i) as [pick|] eqn:Hp; cbn [fmap option_fmap option_map].
    + destruct (Hrow i pick Hp) as (_ & _ & Hl & _). now rewrite Hl.
    + symmetry. apply lookup_ge_None_2. apply lookup_ge_None_1 in Hp. lia.
  - apply Forall_lookup. intros i pick Hp.
    destruct (Hrow i pick Hp) as (Ha & Hb & Hl & Hm).
    assert (Hpos : 0 < pick_level pick) by (eapply filter_level_positive; exact Hl).
    split; [exact Hpos|].
    split; [exact (proj1 (Forall_lookup _ _) Haz i _ Ha)|].
    split; [exact (proj1 (Forall_lookup _ _) Halt i _ Hb)|].
    intros slope offset Hs Ho. rewrite Hs, Ho in Hm.
    rewrite (calculateMagnitudes_lookup_positive (Finite <$> level_data) slope
               offset i (pick_level pick)) in Hm;
      [congruence| |exact Hpos].
    rewrite list_lookup_fmap, Hl. reflexivity.
Qed.

End DriverInvariants.

(** A meteor with a single measurement of level 5, a camera model whose
    pixel-to-sky routine returns the pixel coordinates, and times counted in
    seconds. *)
Lemma meteorPicks_sample_run :
  exists picks,
    meteorPicks (fun t : R => t)
      (fun _ X_data Y_data _ _ _ _ _ _ _ _ _ _ _ => Some (X_data, Y_data))
      (fun (time_beg s : R) => Some (time_beg + s))
      platepar_sample 0 25 [[0; 1; 2; 3; 0; 0; 0; 0; 5]] = Some picks.
Proof.
  unfold meteorPicks.
  cbn [column mapM lookup list_lookup mbind option_bind mret option_ret].
  unfold maskRows. cbn [zip zip_with List.filter snd]. unfold level_positive.
  destruct (Rlt_dec 0 5) as [_|Hn]; [|exfalso; apply Hn; lra].
  cbn [fmap list_fmap fst column mapM lookup list_lookup mbind option_bind mret
       option_ret].
  unfold XY2CorrectedRADecPP, XY2CorrectedRADec. cbv zeta.
  cbn [mbind option_bind fmap list_fmap].
  unfold zeros_like.
  cbn [length replicate seq altAzLoop lookup list_lookup mbind option_bind].
  destruct (raDec2AltAz _ _ _ _ _) as [a b].
  cbn [insert list_insert mbind option_bind].
  rewrite calculateMagnitudes_map. cbn [fmap list_fmap].
  unfold np_c_. cbv zeta. cbn [length].
  destruct (decide _) as [_|Hn]; [|exfalso; apply Hn; repeat split].
  cbn [seq mapM lookup list_lookup mbind option_bind mret option_ret].
  eexists. reflexivity.
Qed.

Lemma meteorPicks_invariants_witness :
  exists picks,
    meteorPicks (fun t : R => t)
      (fun _ X_data Y_data _ _ _ _ _ _ _ _ _ _ _ => Some (X_data, Y_data))
      (fun (time_beg s : R) => Some (time_beg + s))
      platepar_sample 0 25 [[0; 1; 2; 3; 0; 0; 0; 0; 5]] = Some picks
    /\ (exists level_data,
          column 8 [[0; 1; 2; 3; 0; 0; 0; 0; 5]] = Some level_data
          /\ pick_level <$> picks = List.filter level_positive level_data)
    /\ Forall (fun pick =>
         0 < pick_level pick
         /\ 0 <= pick_az pick <= 360
         /\ -90 <= pick_alt pick <= 90
         /\ forall slope offset,
              mag_0 platepar_sample = Finite slope ->
              mag_lev platepar_sample = Finite offset ->
              pick_magnitude pick
              = Finite (slope * (ln (pick_level pick) / ln 10) + offset)) picks.
Proof.
  destruct meteorPicks_sample_run as [picks Hrun].
  exists picks. split; [exact Hrun|].
  exact (meteorPicks_invariants _ _ _ platepar_sample 0 25
           [[0; 1; 2; 3; 0; 0; 0; 0; 5]] picks Hrun).
Defined.

(** ** Sky to pixel *)

Section SkyToPixelProperties.

Variable cyRaDecToCorrectedXY :
  list R -> list R -> R -> R -> R -> R -> R -> R -> R -> R -> R ->
  Poly12 -> Poly12 -> option (list R * list R).

(** X18.  [raDecToCorrectedXYPP] applies the UT correction of the platepar to
    the Julian date of the observation only, as a shift of [UT_corr/24] days:
    the field centre is computed at the reference date of the platepar.  The
    reference right ascension of the platepar matters modulo 360 only. *)
Theorem raDecToCorrectedXYPP_corrections (RA_data dec_data : list R) (jd : R)
    (platepar : Platepar) (hours : R) (k : Z) :
  raDecToCorrectedXYPP cyRaDecToCorrectedXY RA_data dec_data jd
    (set_UT_corr (set_RA_d platepar (RA_d platepar + 360 * IZR k)) hours)
  = raDecToCorrectedXYPP cyRaDecToCorrectedXY RA_data dec_data (jd - hours / 24)
      (set_UT_corr platepar 0).
Proof.
  unfold raDecToCorrectedXYPP, raDecToCorrectedXY, set_UT_corr, set_RA_d.
  cbn [lat lon X_res Y_res RA_d dec_d JD pos_angle_ref F_scale x_poly_rev
       y_poly_rev UT_corr].
  rewrite raDec2AltAz_ra_turns.
  destruct (raDec2AltAz _ _ _ _ _) as [az_centre alt_centre].
  cbv zeta. f_equal; lra.
Qed.

End SkyToPixelProperties.

(** ** The photometric line *)

(** X19.  Applied to a positive level with the slope -2.5 of [photomLine],
    [calculateMagnitudes] gives the value of [photomLine] at the decimal
    logarithm of the level: the line that [photometryFit] fits is the one the
    conversion applies. *)
Theorem calculateMagnitudes_photomLine (level_data : list float64)
    (photom_offset : R) (i : nat) (level : R) :
  level_data !! i = Some (Finite level) -> 0 < level ->
  calculateMagnitudes level_data (Finite (-2.5)) (Finite photom_offset) !! i
  = Some (Finite (photomLine (ln level / ln 10) photom_offset)).
Proof.
  intros Hi Hl. unfold photomLine.
  apply calculateMagnitudes_lookup_positive; assumption.
Qed.

Lemma calculateMagnitudes_photomLine_witness :
  [Finite 100] !! 0%nat = Some (Finite 100) /\ 0 < 100
  /\ calculateMagnitudes [Finite 100] (Finite (-2.5)) (Finite 8) !! 0%nat
     = Some (Finite (photomLine (ln 100 / ln 10) 8)).
Proof.
  assert (H : 0 < 100) by lra.
  split; [reflexivity|]. split; [exact H|].
  exact (calculateMagnitudes_photomLine [Finite 100] 8 0%nat 100 eq_refl H).
Defined.

(** ** Where the image centre looks *)

Lemma correctPoint_centre (x_poly_fwd y_poly_fwd : Poly12) (X_res Y_res F_scale : R) :
  x_poly_fwd.[0] = 0 -> y_poly_fwd.[0] = 0 ->
  correctPoint x_poly_fwd y_poly_fwd X_res Y_res F_scale (X_res / 2) (Y_res / 2)
  = (0, 0).
Proof.
  intros Hx Hy. unfold correctPoint. cbv zeta.
  replace (X_res / 2 - X_res / 2) with 0 by lra.
  replace (Y_res / 2 - Y_res / 2) with 0 by lra.
  rewrite Hx, Hy. f_equal; unfold Rdiv; ring.
Qed.

(** The sine is odd and increasing within a right angle. *)
Lemma sin_between (a b : R) :
  0 < b <= PI / 2 -> - b < a < b -> - sin b < sin a < sin b.
Proof.
  intros Hb Ha. rewrite <- sin_neg.
  split; apply sin_increasing_1; lra.
Qed.

(** A direction whose declination is smaller in absolute value than the
    latitude is never at the zenith or the nadir, in either hemisphere. *)
Lemma zenith_avoided_abs (phi D h : R) :
  - (PI / 2) <= phi <= PI / 2 -> Rabs D < Rabs phi ->
  -1 < cos h * cos D * cos phi + sin D * sin phi < 1.
Proof.
  intros Hphi HD. pose proof PI_RGT_0 as Hpi.
  assert (HDb : - (PI / 2) < D < PI / 2).
  { unfold Rabs in HD. destruct (Rcase_abs D), (Rcase_abs phi); lra. }
  assert (HcD : 0 < cos D) by (apply cos_gt_0; lra).
  assert (Hcp : 0 <= cos phi) by (apply cos_ge_0; lra).
  destruct (Rlt_dec 0 phi) as [Hpos|Hneg].
  - apply zenith_avoided.
    + apply COS_bound.
    + exact HcD.
    + apply cos_pow2.
    + exact Hcp.
    + apply sin_gt_0; lra.
    + apply cos_pow2.
    + apply sin_between; [lra|].
      unfold Rabs in HD. destruct (Rcase_abs D), (Rcase_abs phi); lra.
  - assert (Hphi0 : phi < 0).
    { unfold Rabs in HD. destruct (Rcase_abs D), (Rcase_abs phi); lra. }
    replace (cos h * cos D * cos phi + sin D * sin phi)
      with (cos h * cos D * cos phi + (- sin D) * (- sin phi)) by ring.
    apply zenith_avoided.
    + apply COS_bound.
    + exact HcD.
    + pose proof (cos_pow2 D). lra.
    + exact Hcp.
    + rewrite <- sin_neg. apply sin_gt_0; lra.
    + pose proof (cos_pow2 phi). lra.
    + pose proof (sin_between (- D) (- phi)) as Hb. rewrite !sin_neg in Hb.
      apply Hb; [lra|].
      unfold Rabs in HD. destruct (Rcase_abs D), (Rcase_abs phi); lra.
Qed.

(** The rectified origin is sent to the horizon and back to the reference
    pointing. *)
Lemma raDecPoint_of_centre (lat lon RA_d dec_d Ho pos_angle_ref jd : R) :
  Rabs dec_d < Rabs lat -> Rabs lat <= 90 ->
  raDecPoint lat lon jd
    (altAzPoint lat lon RA_d dec_d Ho pos_angle_ref 0 0).1
    (altAzPoint lat lon RA_d dec_d Ho pos_angle_ref 0 0).2
  = (pymod (RA_d + siderealTime jd - Ho) 360, dec_d).
Proof.
  intros Hdec Hlat. pose proof PI_RGT_0 as Hpi.
  set (delta := radians dec_d). set (lambda := radians lat).
  set (rho := radians (sqrt (0 ^ 2 + 0 ^ 2))).
  set (theta := radians (pymod (90 - pos_angle_ref + degrees (atan2 0 0)) 360)).
  set (s := sin delta * cos rho + cos delta * sin rho * cos theta).
  assert (Hrho : rho = 0).
  { unfold rho. rewrite sqrt_pow2_l by lra. apply radians_0. }
  assert (Hlam : - (PI / 2) <= lambda <= PI / 2).
  { pose proof (radians_le _ _ Hlat) as H1. rewrite <- radians_abs, radians_90 in H1.
    fold lambda in H1. unfold Rabs in H1. destruct (Rcase_abs lambda); lra. }
  assert (Habs : Rabs delta < Rabs lambda).
  { unfold delta, lambda. rewrite !radians_abs. apply radians_lt. exact Hdec. }
  assert (Hdelta : - (PI / 2) < delta < PI / 2).
  { unfold Rabs in Habs. destruct (Rcase_abs delta), (Rcase_abs lambda); lra. }
  assert (Hcd : 0 < cos delta) by (apply cos_gt_0; lra).
  assert (Hs : s = sin delta).
  { unfold s. rewrite Hrho, sin_0, cos_0. ring. }
  assert (Hs1 : -1 < s < 1).
  { rewrite Hs. pose proof (cos_pow2 delta). nra. }
  pose proof (image_to_equatorial delta rho theta Hcd Hs1) as HE. cbv zeta in HE.
  fold s in HE.
  set (D := atan2 s (sqrt (1 - s ^ 2))) in *.
  set (Delta := atan2 (sin theta * sin rho / cos D)
                      ((cos rho - sin D * sin delta) / (cos D * cos delta))) in *.
  destruct HE as (HD & HsD & HcD & HA & HB).
  assert (ED : D = delta).
  { apply sin_inj; [lra|lra|]. rewrite HsD. exact Hs. }
  assert (HDelta : same_dir Delta 0).
  { rewrite Hrho, sin_0, cos_0, ED in HA. rewrite Hrho, sin_0, ED in HB.
    unfold same_dir. rewrite cos_0, sin_0. split; nra. }
  set (RA0 := pymod (RA_d - degrees Delta) 360).
  set (h := radians (Ho + lon - RA0)).
  assert (Hz : -1 < cos h * cos D * cos (radians lat) + sin D * sin (radians lat) < 1).
  { fold lambda. apply zenith_avoided_abs; [exact Hlam|]. rewrite ED. exact Habs. }
  destruct (raDecPoint_of_altAz lat lon jd h D HD Hz) as (HAng & Hdir & Eq).
  cbv zeta in Eq.
  assert (Ep : raDecPoint lat lon jd
                 (altAzPoint lat lon RA_d dec_d Ho pos_angle_ref 0 0).1
                 (altAzPoint lat lon RA_d dec_d Ho pos_angle_ref 0 0).2
               = (pymod (siderealTime jd + lon - degrees HAng) 360, degrees D)).
  { unfold altAzPoint. cbv zeta. cbn [fst snd]. exact Eq. }
  rewrite Ep, ED. unfold delta. rewrite degrees_radians. f_equal.
  apply pymod_360_same_dir.
  rewrite radians_minus, radians_degrees.
  replace (radians (RA_d + siderealTime jd - Ho))
    with (radians (siderealTime jd + lon)
          - (radians (Ho + lon) - (radians RA_d - 0)))
    by (unfold radians; lra).
  apply same_dir_minus; [apply same_dir_refl|].
  eapply same_dir_trans; [exact Hdir|].
  unfold h. rewrite radians_minus.
  apply same_dir_minus; [apply same_dir_refl|].
  unfold RA0. eapply same_dir_trans; [apply same_dir_pymod|].
  rewrite radians_minus, radians_degrees.
  apply same_dir_minus; [apply same_dir_refl|exact HDelta].
Qed.

Section ImageCentre.

Context {TimeData : Type}.
Variable date2JD : TimeData -> R -> R.
Variable datetime2JD : TimeData -> R -> R.

(** X20.  The image centre looks at the reference pointing.  When the
    constant terms of the two forward polynomials are zero and the reference
    declination is smaller in absolute value than the latitude (so that the
    pointing is never at the zenith), [XY2altAz] followed by [altAz2RADec]
    sends the centre pixel to the declination [dec_d] and to the right
    ascension [RA_d] advanced by the sidereal time elapsed since the
    reference hour angle [Ho], whatever the other coefficients, the scale and
    the position angle are. *)
Theorem image_centre_points_at_reference
    (lat lon RA_d dec_d Ho X_res Y_res pos_angle_ref F_scale UT_corr : R)
    (x_poly_fwd y_poly_fwd : Poly12) (entry : TimeData) :
  x_poly_fwd.[0] = 0 -> y_poly_fwd.[0] = 0 ->
  Rabs dec_d < Rabs lat -> Rabs lat <= 90 ->
  exists azimuth altitude,
    XY2altAz [X_res / 2] [Y_res / 2] lat lon RA_d dec_d Ho X_res Y_res
      pos_angle_ref F_scale x_poly_fwd y_poly_fwd
    = Some ([azimuth], [altitude])
    /\ altAz2RADec date2JD datetime2JD lat lon UT_corr [entry] [azimuth]
         [altitude] false
       = Some ([date2JD entry (- UT_corr)],
               [pymod (RA_d + siderealTime (date2JD entry (- UT_corr)) - Ho) 360],
               [dec_d]).
Proof.
  intros Hx Hy Hdec Hlat.
  rewrite XY2altAz_map by reflexivity. cbn [zip_with].
  rewrite (correctPoint_centre _ _ _ _ _ Hx Hy). cbn [fst snd].
  eexists _, _. split; [reflexivity|].
  rewrite altAz2RADec_map by (cbn [length]; lia).
  cbn [zip zip_with fst snd].
  rewrite (raDecPoint_of_centre lat lon RA_d dec_d Ho pos_angle_ref _ Hdec Hlat).
  reflexivity.
Qed.

End ImageCentre.

Lemma image_centre_points_at_reference_witness :
  poly_zero.[0] = 0 /\ poly_zero.[0] = 0 /\ Rabs 20 < Rabs 45 /\ Rabs 45 <= 90
  /\ exists azimuth altitude,
       XY2altAz [1280 / 2] [720 / 2] 45 15 10 20 30 1280 720 0 40 poly_zero poly_zero
       = Some ([azimuth], [altitude])
       /\ altAz2RADec (fun (jd : R) (_ : R) => jd) (fun (jd : R) (_ : R) => jd) 45 15 0
            [2451545] [azimuth] [altitude] false
          = Some ([2451545], [pymod (10 + siderealTime 2451545 - 30) 360], [20]).
Proof.
  assert (H1 : Rabs 20 < Rabs 45) by (rewrite !Rabs_pos_eq by lra; lra).
  assert (H2 : Rabs 45 <= 90) by (rewrite Rabs_pos_eq by lra; lra).
  split; [reflexivity|]. split; [reflexivity|]. split; [exact H1|]. split; [exact H2|].
  exact (image_centre_points_at_reference (fun (jd : R) (_ : R) => jd)
           (fun (jd : R) (_ : R) => jd) 45 15 10 20 30 1280 720 0 40 0
           poly_zero poly_zero 2451545 eq_refl eq_refl H1 H2).
Defined.

(** ** The objective of the position-angle solvers *)

Lemma wrapped_distance_shortest_arc (t c : R) :
  0 <= t < 360 -> 0 <= c < 360 ->
  180 - Rabs (Rabs (t - c) - 180) = Rmin (Rabs (t - c)) (360 - Rabs (t - c))
  /\ 0 <= 180 - Rabs (Rabs (t - c) - 180) <= 180.
Proof.
  intros Ht Hc. unfold Rmin.
  destruct (Rle_dec (Rabs (t - c)) (360 - Rabs (t - c))) as [H|H];
    revert H; unfold Rabs;
    destruct (Rcase_abs (t - c));
    match goal with |- context [Rcase_abs ?u] => destruct (Rcase_abs u) end;
    intros; lra.
Qed.

Section ShortestArc.

Variable rotation : Platepar -> option R.

(** X21.  The residual that the solvers minimise is the shorter of the two
    arcs between the target rotation and the computed one, both reduced mod
    360; it always lies in [0, 180]. *)
Theorem _rotAngleResidual_shortest_arc (platepar : ref) (s : Store) (o : Platepar)
    (target p rot : R) :
  s !! platepar = Some o ->
  rotation (set_pos_angle_ref o p) = Some rot ->
  exists v s',
    _rotAngleResidual rotation platepar p (pymod target 360) s = Some (v, s')
    /\ v = Rmin (Rabs (pymod target 360 - pymod rot 360))
                (360 - Rabs (pymod target 360 - pymod rot 360))
    /\ 0 <= v <= 180.
Proof.
  intros Hs Hrot.
  rewrite (_rotAngleResidual_run rotation platepar s o p (pymod target 360) rot Hs Hrot).
  eexists _, _. split; [reflexivity|].
  apply wrapped_distance_shortest_arc; apply pymod_bound; lra.
Qed.

End ShortestArc.

Lemma _rotAngleResidual_shortest_arc_witness :
  exists rot v s',
    ({[0%nat := platepar_sample]} : Store) !! 0%nat = Some platepar_sample
    /\ rotationWrtHorizon (set_pos_angle_ref platepar_sample 30) = Some rot
    /\ _rotAngleResidual rotationWrtHorizon 0%nat 30 (pymod 400 360)
         {[0%nat := platepar_sample]} = Some (v, s')
    /\ v = Rmin (Rabs (pymod 400 360 - pymod rot 360))
                (360 - Rabs (pymod 400 360 - pymod rot 360))
    /\ 0 <= v <= 180.
Proof.
  destruct (rotationWrtHorizon_total (set_pos_angle_ref platepar_sample 30))
    as (rot & Hrot & _).
  destruct (_rotAngleResidual_shortest_arc rotationWrtHorizon 0%nat
              {[0%nat := platepar_sample]} platepar_sample 400 30 rot
              (lookup_singleton_eq _ _) Hrot) as (v & s' & Hv & Hmin & Hrange).
  exists rot, v, s'. split; [apply lookup_singleton_eq|]. auto.
Defined.
